(** * Wordle engine: guess evaluation, session state machine, statistics
      and persistence of the [wordle-game] sources, as a shallow embedding.

    Conventions of the embedding:
    - a JavaScript array is a MathComp sequence, read with [nth] (an index
      out of range reads [undefined]) and written with [set_nth] (a write
      out of range extends the array);
    - a string is a [string] of ASCII characters;
    - a [Set] is the sequence of its elements, without duplicates, in
      insertion order;
    - a counter is a natural number, and enters the arithmetic of the
      derived statistics as the IEEE 754 double it is;
    - the clock ([Date.now()], the date) and the random source are inputs
      of the operations that read them;
    - the item of [localStorage] is the document tree its JSON text denotes;
    - an operation that throws returns [None]. *)

From Stdlib Require Import String Ascii ZArith Floats DecimalString.
From HB Require Import structures.
From mathcomp Require Import ssreflect ssrfun ssrbool eqtype ssrnat div seq.

Set Implicit Arguments.
Unset Strict Implicit.
Unset Printing Implicit Defensive.

(* ------------------------------------------------------------------ *)
(** ** Characters and strings *)

HB.instance Definition _ := hasDecEq.Build ascii Ascii.eqb_spec.
HB.instance Definition _ := hasDecEq.Build string String.eqb_spec.

(** [s.split('')]: the characters of a string. *)
Definition chars (s : string) : seq ascii := list_ascii_of_string s.

Definition is_lower (c : ascii) : bool :=
  (97 <= nat_of_ascii c) && (nat_of_ascii c <= 122).

Definition is_upper (c : ascii) : bool :=
  (65 <= nat_of_ascii c) && (nat_of_ascii c <= 90).

(** [toUpperCase] on ASCII text: a..z go to A..Z, the rest is kept. *)
Definition upper_char (c : ascii) : ascii :=
  if is_lower c then ascii_of_nat (nat_of_ascii c - 32) else c.

Definition toUpperCase (s : string) : string :=
  string_of_list_ascii [seq upper_char c | c <- chars s].

(* ------------------------------------------------------------------ *)
(** ** Letter states and the cells of the working arrays *)

Inductive LetterState := correct | present | absent | unused.

Definition LetterState_code (s : LetterState) : nat :=
  match s with correct => 3 | present => 2 | absent => 1 | unused => 0 end.

Definition LetterState_decode (n : nat) : LetterState :=
  match n with 3 => correct | 2 => present | 1 => absent | _ => unused end.

Lemma LetterState_codeK : cancel LetterState_code LetterState_decode.
Proof. by case. Qed.

HB.instance Definition _ := Equality.copy LetterState (can_type LetterState_codeK).

(** An element of [targetLetters] / [guessLetters]: a character, [null]
    once it is used up, or [undefined] when read past the end. *)
Inductive cell := Undef | Null | Chr of ascii.

Definition cell_eqb (a b : cell) : bool :=
  match a, b with
  | Undef, Undef => true
  | Null, Null => true
  | Chr x, Chr y => x == y
  | _, _ => false
  end.

Lemma cell_eqP : Equality.axiom cell_eqb.
Proof.
case=> [||x] [||y] /=; try by constructor.
by apply: (iffP eqP) => [->|[]].
Qed.

HB.instance Definition _ := hasDecEq.Build cell cell_eqP.

(** [word.split('')] as an array of cells. *)
Definition split (w : string) : seq cell := [seq Chr c | c <- chars w].

(** [arr.indexOf(x)]: first index holding a value strictly equal to [x];
    [None] is the source's [-1].  Holes are skipped, and [undefined] is
    never stored in these arrays, so looking for [undefined] finds nothing. *)
Definition indexOf (x : cell) (arr : seq cell) : option nat :=
  if x == Undef then None
  else if index x arr < size arr then Some (index x arr) else None.

(* ------------------------------------------------------------------ *)
(** ** evaluateGuess (WordleGame.evaluateGuess, GameStateManager.evaluateGuess) *)

Module Evaluator.

Record work := Work {
  result : seq LetterState;
  targetLetters : seq cell;
  guessLetters : seq cell
}.

(** Body of the first loop: exact matches. *)
Definition pass1_step (w : work) (i : nat) : work :=
  if nth Undef (guessLetters w) i == nth Undef (targetLetters w) i then
    Work (set_nth absent (result w) i correct)
         (set_nth Undef (targetLetters w) i Null)
         (set_nth Undef (guessLetters w) i Null)
  else w.

(** Body of the second loop: displaced matches. *)
Definition pass2_step (w : work) (i : nat) : work :=
  if nth Undef (guessLetters w) i != Null then
    if indexOf (nth Undef (guessLetters w) i) (targetLetters w) is Some targetIndex
    then Work (set_nth absent (result w) i present)
              (set_nth Undef (targetLetters w) targetIndex Null)
              (guessLetters w)
    else w
  else w.

Definition init (n : nat) (target guess : string) : work :=
  Work (nseq n absent) (split target) (split guess).

Definition pass1 (n : nat) (w : work) : work := foldl pass1_step w (iota 0 n).
Definition pass2 (n : nat) (w : work) : work := foldl pass2_step w (iota 0 n).

(** The two loops run over [0 .. n-1], [n] being [wordLength]. *)
Definition evaluate (n : nat) (target guess : string) : seq LetterState :=
  result (pass2 n (pass1 n (init n target guess))).

End Evaluator.

Definition wordLength : nat := 5.
Definition maxGuesses : nat := 6.

(* ------------------------------------------------------------------ *)
(** ** Sets, guesses, status *)

(** A JavaScript [Set]: its elements without duplicates, in insertion order. *)
Definition set_add (T : eqType) (s : seq T) (x : T) : seq T :=
  if x \in s then s else rcons s x.

Inductive GameStatus := playing | won | lost.

Definition GameStatus_code (s : GameStatus) : nat :=
  match s with playing => 0 | won => 1 | lost => 2 end.

Definition GameStatus_decode (n : nat) : GameStatus :=
  match n with 0 => playing | 1 => won | _ => lost end.

Lemma GameStatus_codeK : cancel GameStatus_code GameStatus_decode.
Proof. by case. Qed.

HB.instance Definition _ := Equality.copy GameStatus (can_type GameStatus_codeK).

(** An entry of [guesses]: [{ word, result }]. *)
Record Guess := MkGuess { word : string; result : seq LetterState }.

(** [str.slice(0, -1)]. *)
Definition slice_init (s : string) : string :=
  string_of_list_ascii (take (size (chars s)).-1 (chars s)).

Definition strlen (s : string) : nat := size (chars s).

(* ------------------------------------------------------------------ *)
(** ** WordleGame *)

Module WordleGame.

(** The fields the methods change; [maxGuesses] and [wordLength] are set
    once by the constructor to 6 and 5. *)
Record t := Game {
  wordList : seq string;
  targetWord : string;
  currentGuess : string;
  guesses : seq Guess;
  gameStatus : GameStatus;
  usedLetters : seq ascii
}.

(** [rnd] is the draw [Math.floor(Math.random() * wordList.length)]. *)
Definition selectRandomWord (rnd : nat) (wl : seq string) : string :=
  if size wl == 0 then "WORLD"%string
  else toUpperCase (nth ""%string wl (rnd %% size wl)).

Definition initializeGame (rnd : nat) (g : t) : t :=
  Game (wordList g) (selectRandomWord rnd (wordList g)) ""%string [::] playing [::].

Definition addLetter (letter : string) (g : t) : bool * t :=
  if gameStatus g != playing then (false, g)
  else if strlen (currentGuess g) < wordLength then
    (true, Game (wordList g) (targetWord g)
                (append (currentGuess g) (toUpperCase letter))
                (guesses g) (gameStatus g) (usedLetters g))
  else (false, g).

Definition removeLetter (g : t) : bool * t :=
  if gameStatus g != playing then (false, g)
  else if 0 < strlen (currentGuess g) then
    (true, Game (wordList g) (targetWord g) (slice_init (currentGuess g))
                (guesses g) (gameStatus g) (usedLetters g))
  else (false, g).

(** [/^[A-Z]{5}$/.test(word)]. *)
Definition isValidWord (w : string) : bool :=
  (strlen w == 5) && all is_upper (chars w).

Definition evaluateGuess (g : t) (guess : string) : seq LetterState :=
  Evaluator.evaluate wordLength (targetWord g) guess.

(** Applied to the guesses once the new one is pushed. *)
Definition checkGameStatus (target : string) (gs : seq Guess) (st : GameStatus)
  : GameStatus :=
  if (0 < size gs) && (word (last (MkGuess ""%string [::]) gs) == target) then won
  else if maxGuesses <= size gs then lost
  else st.

Definition submitGuess (g : t) : bool * t :=
  if gameStatus g != playing then (false, g)
  else if strlen (currentGuess g) != wordLength then (false, g)
  else if ~~ isValidWord (currentGuess g) then (false, g)
  else
    let res := evaluateGuess g (currentGuess g) in
    let gs := rcons (guesses g) (MkGuess (currentGuess g) res) in
    let used := foldl (@set_add _) (usedLetters g) (chars (currentGuess g)) in
    (true, Game (wordList g) (targetWord g) ""%string gs
                (checkGameStatus (targetWord g) gs (gameStatus g)) used).

(** [guess.word.indexOf(upperLetter)] is a substring search; the answer is
    [None] when [guess.result] has no entry there ([undefined]). *)
Fixpoint letterStatus_in (upperLetter : string) (gs : seq Guess)
  : option LetterState :=
  match gs with
  | [::] => Some unused
  | guess :: gs' =>
      match String.index 0 upperLetter (word guess) with
      | Some letterIndex =>
          if letterIndex < size (result guess)
          then Some (nth unused (result guess) letterIndex) else None
      | None => letterStatus_in upperLetter gs'
      end
  end.

Definition getLetterStatus (g : t) (letter : string) : option LetterState :=
  letterStatus_in (toUpperCase letter) (guesses g).

Definition resetGame := initializeGame.

(** A caller's moves on a session. *)
Inductive action := AddLetter of string | RemoveLetter | SubmitGuess.

Definition step (g : t) (a : action) : bool * t :=
  match a with
  | AddLetter letter => addLetter letter g
  | RemoveLetter => removeLetter g
  | SubmitGuess => submitGuess g
  end.

Definition run (g : t) (acts : seq action) : t :=
  foldl (fun g a => (step g a).2) g acts.

(** A session as [initializeGame] leaves it, whatever its secret word. *)
Definition fresh (wl : seq string) (target : string) : t :=
  Game wl target ""%string [::] playing [::].

(** The session after the moves [acts]. *)
Definition play (wl : seq string) (target : string) (acts : seq action) : t :=
  run (fresh wl target) acts.

(** Typing a word letter by letter, then submitting it. *)
Definition typeWord (w : string) : seq action :=
  rcons [seq AddLetter (String c EmptyString) | c <- chars w] SubmitGuess.

End WordleGame.

(* ------------------------------------------------------------------ *)
(** ** JavaScript values and the stored document *)

Module Json.

(** The object graph reachable from [this.state]: JSON data plus [Set]s.
    A stored item is the document [JSON.stringify] writes, taken as the
    tree its text denotes (a [value] without [VSet]). *)
Inductive value :=
  | VNull
  | VBool of bool
  | VNum of Z
  | VStr of string
  | VArr of seq value
  | VObj of seq (string * value)
  | VSet of seq value.

(** [obj[key]]; [None] is [undefined]. *)
Fixpoint get (key : string) (kvs : seq (string * value)) : option value :=
  match kvs with
  | [::] => None
  | (k, v) :: kvs' => if k == key then Some v else get key kvs'
  end.

(** [key in obj]. *)
Definition has_key (key : string) (kvs : seq (string * value)) : bool :=
  key \in [seq kv.1 | kv <- kvs].

(** [value.__type__ === 'Set'] on an object. *)
Definition tagged_Set (kvs : seq (string * value)) : bool :=
  if get "__type__"%string kvs is Some (VStr s) then s == "Set"%string else false.

(** The replacer of [saveState], applied by [JSON.stringify] at every node:
    a [Set] becomes [{ __type__: 'Set', values: Array.from(value) }]. *)
Fixpoint stringify (v : value) : value :=
  match v with
  | VArr vs => VArr [seq stringify x | x <- vs]
  | VObj kvs => VObj [seq (let: (k, x) := kv in (k, stringify x)) | kv <- kvs]
  | VSet vs =>
      VObj [:: ("__type__"%string, VStr "Set"%string);
               ("values"%string, VArr [seq stringify x | x <- vs])]
  | _ => v
  end.

(** SameValueZero on parsed data: primitives compare by content, parsed
    arrays and objects are distinct objects. *)
Definition sameValueZero (a b : value) : bool :=
  match a, b with
  | VNull, VNull => true
  | VBool x, VBool y => x == y
  | VNum x, VNum y => Z.eqb x y
  | VStr x, VStr y => x == y
  | _, _ => false
  end.

Definition Set_add (s : seq value) (x : value) : seq value :=
  if has (sameValueZero x) s then s else rcons s x.

(** [new Set(iterable)]; [None] is the TypeError for a non-iterable. *)
Definition new_Set (arg : option value) : option (seq value) :=
  match arg with
  | None | Some VNull => Some [::]
  | Some (VArr vs) => Some (foldl Set_add [::] vs)
  | Some (VSet vs) => Some vs
  | Some (VStr s) =>
      Some (foldl Set_add [::] [seq VStr (String c EmptyString) | c <- chars s])
  | Some _ => None
  end.

(** The reviver of [loadState], at one node whose children are revived. *)
Definition reviver (v : value) : option value :=
  match v with
  | VObj kvs =>
      if tagged_Set kvs then omap VSet (new_Set (get "values"%string kvs))
      else Some v
  | _ => Some v
  end.

Fixpoint sequence (T : Type) (s : seq (option T)) : option (seq T) :=
  match s with
  | [::] => Some [::]
  | x :: s' => obind (fun y => omap (cons y) (sequence s')) x
  end.

(** [JSON.parse(text, reviver)] on the document: children first, then the
    node; [None] when the reviver throws. *)
Fixpoint parse (v : value) : option value :=
  match v with
  | VArr vs => obind (fun vs' => reviver (VArr vs')) (sequence [seq parse x | x <- vs])
  | VObj kvs =>
      obind (fun kvs' => reviver (VObj kvs'))
        (sequence [seq (let: (k, x) := kv in omap (pair k) (parse x)) | kv <- kvs])
  | _ => reviver v
  end.

(** What a round trip preserves: every [Set] is duplicate-free (as every
    [Set] is) and holds primitives, and no plain object carries the tag. *)
Definition primitive (v : value) : bool :=
  match v with VNull | VBool _ | VNum _ | VStr _ => true | _ => false end.

Fixpoint distinct (s : seq value) : bool :=
  match s with
  | [::] => true
  | x :: s' => ~~ has (sameValueZero x) s' && distinct s'
  end.

Fixpoint wf (v : value) : bool :=
  match v with
  | VArr vs => all wf vs
  | VObj kvs => ~~ tagged_Set kvs && all (fun kv => wf kv.2) kvs
  | VSet vs => all primitive vs && distinct vs
  | _ => true
  end.

End Json.

(* ------------------------------------------------------------------ *)
(** ** GameStateManager: the state object *)

Module Statistics.
Record t := Make {
  gamesPlayed : nat;
  gamesWon : nat;
  currentStreak : nat;
  maxStreak : nat;
  guessDistribution : seq nat
}.
End Statistics.

Module Settings.
Record t := Make {
  hardMode : bool;
  darkTheme : bool;
  colorblindMode : bool;
  animations : bool
}.
End Settings.

Module Achievement.
Record t := Make {
  id : string;
  name : string;
  description : string;
  icon : string;
  unlockedAt : Z
}.
End Achievement.

Module GuessEntry.
Record t := Make {
  word : string;
  result : seq LetterState;
  timestamp : Z
}.
End GuessEntry.

Module Game.
Record t := Make {
  id : string;
  targetWord : string;
  currentGuess : string;
  guesses : seq GuessEntry.t;
  gameStatus : GameStatus;
  maxGuesses : nat;
  wordLength : nat;
  startTime : Z;
  endTime : option Z;
  usedLetters : seq ascii;
  wordList : seq string
}.
End Game.

Module HistoryEntry.
Record t := Make {
  id : string;
  targetWord : string;
  gameStatus : GameStatus;
  guessCount : nat;
  duration : Z;
  date : string;
  completedAt : option Z
}.
End HistoryEntry.

Module State.
Record t := Make {
  currentGame : option Game.t;
  gameHistory : seq HistoryEntry.t;
  statistics : Statistics.t;
  settings : Settings.t;
  achievements : seq Achievement.t;
  lastPlayed : option Z
}.
End State.

(** The typed state as the object graph it is in memory. *)
Module Repr.
Import Json.

Definition str (s : string) : value := VStr s.
Definition num (n : nat) : value := VNum (Z.of_nat n).
Definition onum (n : option Z) : value := if n is Some z then VNum z else VNull.

Definition of_LetterState (s : LetterState) : value :=
  VStr match s with
       | correct => "correct" | present => "present"
       | absent => "absent" | unused => "unused"
       end%string.

Definition of_GameStatus (s : GameStatus) : value :=
  VStr match s with playing => "playing" | won => "won" | lost => "lost" end%string.

Definition of_Statistics (s : Statistics.t) : value :=
  VObj [:: ("gamesPlayed", num (Statistics.gamesPlayed s));
           ("gamesWon", num (Statistics.gamesWon s));
           ("currentStreak", num (Statistics.currentStreak s));
           ("maxStreak", num (Statistics.maxStreak s));
           ("guessDistribution", VArr [seq num n | n <- Statistics.guessDistribution s])]%string.

Definition of_Settings (s : Settings.t) : value :=
  VObj [:: ("hardMode", VBool (Settings.hardMode s));
           ("darkTheme", VBool (Settings.darkTheme s));
           ("colorblindMode", VBool (Settings.colorblindMode s));
           ("animations", VBool (Settings.animations s))]%string.

Definition of_Achievement (a : Achievement.t) : value :=
  VObj [:: ("id", str (Achievement.id a));
           ("name", str (Achievement.name a));
           ("description", str (Achievement.description a));
           ("icon", str (Achievement.icon a));
           ("unlockedAt", VNum (Achievement.unlockedAt a))]%string.

Definition of_GuessEntry (g : GuessEntry.t) : value :=
  VObj [:: ("word", str (GuessEntry.word g));
           ("result", VArr [seq of_LetterState r | r <- GuessEntry.result g]);
           ("timestamp", VNum (GuessEntry.timestamp g))]%string.

Definition of_letters (s : seq ascii) : value :=
  VSet [seq VStr (String c EmptyString) | c <- s].

Definition of_Game (g : Game.t) : value :=
  VObj [:: ("id", str (Game.id g));
           ("targetWord", str (Game.targetWord g));
           ("currentGuess", str (Game.currentGuess g));
           ("guesses", VArr [seq of_GuessEntry x | x <- Game.guesses g]);
           ("gameStatus", of_GameStatus (Game.gameStatus g));
           ("maxGuesses", num (Game.maxGuesses g));
           ("wordLength", num (Game.wordLength g));
           ("startTime", VNum (Game.startTime g));
           ("endTime", onum (Game.endTime g));
           ("usedLetters", of_letters (Game.usedLetters g));
           ("wordList", VArr [seq str w | w <- Game.wordList g])]%string.

Definition of_HistoryEntry (h : HistoryEntry.t) : value :=
  VObj [:: ("id", str (HistoryEntry.id h));
           ("targetWord", str (HistoryEntry.targetWord h));
           ("gameStatus", of_GameStatus (HistoryEntry.gameStatus h));
           ("guessCount", num (HistoryEntry.guessCount h));
           ("duration", VNum (HistoryEntry.duration h));
           ("date", str (HistoryEntry.date h));
           ("completedAt", onum (HistoryEntry.completedAt h))]%string.

Definition of_State (s : State.t) : value :=
  VObj [:: ("currentGame", if State.currentGame s is Some g then of_Game g else VNull);
           ("gameHistory", VArr [seq of_HistoryEntry h | h <- State.gameHistory s]);
           ("statistics", of_Statistics (State.statistics s));
           ("settings", of_Settings (State.settings s));
           ("achievements", VArr [seq of_Achievement a | a <- State.achievements s]);
           ("lastPlayed", onum (State.lastPlayed s))]%string.

End Repr.

(* ------------------------------------------------------------------ *)
(** ** saveState / loadState on the object graph *)

Module Persistence.
Import Json.

Definition isValidState (st : value) : bool :=
  match st with
  | VObj kvs =>
      [&& has_key "statistics"%string kvs, has_key "settings"%string kvs
        & has_key "achievements"%string kvs]
  | _ => false
  end.

Definition truthy (v : value) : bool :=
  match v with
  | VNull => false
  | VBool b => b
  | VNum z => ~~ Z.eqb z 0
  | VStr s => s != ""%string
  | _ => true
  end.

(** [obj[key] = x]: the property is replaced where it stands, or added last. *)
Fixpoint put (key : string) (x : value) (kvs : seq (string * value))
  : seq (string * value) :=
  match kvs with
  | [::] => [:: (key, x)]
  | (k, v) :: kvs' => if k == key then (k, x) :: kvs' else (k, v) :: put key x kvs'
  end.

(** [if (currentGame && !currentGame.usedLetters) currentGame.usedLetters = new Set()]
    for a [currentGame] that is an object, as every stored one is; any
    other value is left as it was loaded. *)
Definition restore_usedLetters (st : value) : value :=
  match st with
  | VObj kvs =>
      match get "currentGame"%string kvs with
      | Some (VObj game) =>
          if (if get "usedLetters"%string game is Some u then truthy u else false)
          then st
          else VObj (put "currentGame"%string
                         (VObj (put "usedLetters"%string (VSet [::]) game)) kvs)
      | _ => st
      end
  | _ => st
  end.

(** [st.a.b...]: the value along a path of properties. *)
Fixpoint field (path : seq string) (st : value) : option value :=
  match path with
  | [::] => Some st
  | key :: path' =>
      if st is VObj kvs then obind (field path') (get key kvs) else None
  end.

(** The item written by [saveState]; the store takes the write. *)
Definition saveState (st : value) : option value := Some (stringify st).

(** [loadState]: the new [this.state], given the present one and the item.
    A missing item, a throwing reviver or an invalid shape keep the present
    state. *)
Definition loadState (current : value) (item : option value) : value :=
  match item with
  | None => current
  | Some doc =>
      match parse doc with
      | None => current
      | Some loadedState =>
          if isValidState loadedState then restore_usedLetters loadedState
          else current
      end
  end.

End Persistence.

(* ------------------------------------------------------------------ *)
(** ** JavaScript numbers in the derived statistics *)

Module Number.

(** A number is an IEEE 754 double; the counters (naturals here) enter the
    arithmetic as the doubles they are, exactly so below 2^53. *)
Definition of_nat (n : nat) : float :=
  PrimFloat.of_uint63 (Uint63.of_Z (Z.of_nat n)).

Definition of_Z (z : Z) : float :=
  if (z <? 0)%Z then PrimFloat.opp (PrimFloat.of_uint63 (Uint63.of_Z (- z)))
  else PrimFloat.of_uint63 (Uint63.of_Z z).

(** [floor (v * scale + 1/2)] for the double [v = m * 2^e], in exact
    integer arithmetic. *)
Definition round_scaled (scale : Z) (neg : bool) (m : positive) (e : Z) : Z :=
  let n := if neg then Z.neg m else Z.pos m in
  if (0 <=? e)%Z then (scale * n * 2 ^ e)%Z
  else ((2 * scale * n + 2 ^ (- e)) / 2 ^ (- e + 1))%Z.

(** [Math.round]: the nearest integer, a tie going up; zeros, infinities
    and NaN are returned as they are. *)
Definition round (x : float) : float :=
  match Prim2SF x with
  | S754_finite neg m e =>
      if (0 <=? e)%Z then x
      else
        let r := round_scaled 1 neg m e in
        if (r =? 0)%Z then (if neg then PrimFloat.opp 0%float else 0%float)
        else of_Z r
  | _ => x
  end.

(** [xs.reduce((sum, x) => sum + x, 0)] on counters. *)
Definition sum (xs : seq nat) : float :=
  foldl (fun acc x => PrimFloat.add acc (of_nat x)) 0%float xs.

Definition decimal (n : Z) : string := NilZero.string_of_uint (N.to_uint (Z.to_N n)).

(** [x.toFixed(1)] for a double below 10^21 in magnitude: the decimal [n/10]
    nearest to [x], the larger [n] on a tie, with one digit after the point. *)
Definition toFixed1 (x : float) : string :=
  match Prim2SF x with
  | S754_zero _ => "0.0"%string
  | S754_infinity neg => if neg then "-Infinity"%string else "Infinity"%string
  | S754_nan => "NaN"%string
  | S754_finite neg m e =>
      let n := round_scaled 10 false m e in
      append (if neg then "-" else "")%string
        (append (decimal (n / 10)) (append "." (decimal (n mod 10))))
  end.

End Number.

(* ------------------------------------------------------------------ *)
(** ** GameStateManager: game flow and statistics *)

Module GameStateManager.

(** [this.state] and the item ['wordleGameState'] of [localStorage]
    ([None]: no item). *)
Record t := Make {
  state : State.t;
  localStorage : option Json.value
}.

Definition initialStatistics : Statistics.t :=
  Statistics.Make 0 0 0 0 [:: 0; 0; 0; 0; 0; 0].

Definition initialSettings : Settings.t := Settings.Make false false false true.

Definition initialState : State.t :=
  State.Make None [::] initialStatistics initialSettings [::] None.

(** The constructor on an empty [localStorage]. *)
Definition create : t := Make initialState None.

Definition saveState (m : t) : t :=
  Make (state m) (Persistence.saveState (Repr.of_State (state m))).

Definition set_currentGame (g : option Game.t) (s : State.t) : State.t :=
  State.Make g (State.gameHistory s) (State.statistics s) (State.settings s)
             (State.achievements s) (State.lastPlayed s).

Definition selectTargetWord (rnd : nat) (wl : seq string) : string :=
  if size wl == 0 then "WORLD"%string
  else toUpperCase (nth ""%string wl (rnd %% size wl)).

(** [now] is the reading of [Date.now()], [gid] the generated game id. *)
Definition initializeNewGame (now : Z) (gid : string) (rnd : nat)
    (wl : seq string) (m : t) : t :=
  let gameState :=
    Game.Make gid (selectTargetWord rnd wl) ""%string [::] playing 6 5 now None [::] wl in
  saveState (Make (set_currentGame (Some gameState) (state m)) (localStorage m)).

Definition evaluateGuess (guess targetWord : string) : seq LetterState :=
  Evaluator.evaluate 5 targetWord guess.

Definition checkGameStatus (now : Z) (game : Game.t) : Game.t :=
  let gs := Game.guesses game in
  let finish st :=
    Game.Make (Game.id game) (Game.targetWord game) (Game.currentGuess game) gs st
              (Game.maxGuesses game) (Game.wordLength game) (Game.startTime game)
              (Some now) (Game.usedLetters game) (Game.wordList game) in
  if (0 < size gs)
     && (GuessEntry.word (last (GuessEntry.Make ""%string [::] 0%Z) gs) == Game.targetWord game)
  then finish won
  else if Game.maxGuesses game <= size gs then finish lost
  else game.

Definition hasAchievement (achievementId : string) (s : State.t) : bool :=
  has (fun a => Achievement.id a == achievementId) (State.achievements s).

Definition checkAchievements (now : Z) (game : Game.t) (s : State.t) : State.t :=
  let stats := State.statistics s in
  let newAchievements :=
    (if (Statistics.gamesWon stats == 1) && ~~ hasAchievement "first_win" s
     then [:: Achievement.Make "first_win" "首次获胜" "完成你的第一个Wordle游戏" "🎉" now]
     else [::])
    ++ (if (5 <= Statistics.currentStreak stats) && ~~ hasAchievement "streak_master" s
        then [:: Achievement.Make "streak_master" "连胜大师" "连续赢得5场游戏" "🔥" now]
        else [::])
    ++ (if (Game.gameStatus game == won) && (size (Game.guesses game) == 1)
           && ~~ hasAchievement "perfect_game" s
        then [:: Achievement.Make "perfect_game" "完美游戏" "一次就猜中目标单词" "💯" now]
        else [::])
    ++ (if (10 <= Statistics.gamesPlayed stats) && ~~ hasAchievement "word_master" s
        then [:: Achievement.Make "word_master" "词汇大师" "完成10场游戏" "📚" now]
        else [::]) in
  State.Make (State.currentGame s) (State.gameHistory s) stats (State.settings s)
             (State.achievements s ++ newAchievements) (State.lastPlayed s).

(** The statistics part of [finalizeGame].  [guessDistribution] has its six
    slots, as the constructor and the resets build it. *)
Definition updateStatistics (game : Game.t) (stats : Statistics.t) : Statistics.t :=
  let played := (Statistics.gamesPlayed stats).+1 in
  if Game.gameStatus game == won then
    let gamesWon := (Statistics.gamesWon stats).+1 in
    let currentStreak := (Statistics.currentStreak stats).+1 in
    let maxStreak := maxn (Statistics.maxStreak stats) currentStreak in
    let guessCount := size (Game.guesses game) in
    let dist := Statistics.guessDistribution stats in
    Statistics.Make played gamesWon currentStreak maxStreak
      (if (1 <= guessCount) && (guessCount <= 6)
       then set_nth 0 dist (guessCount - 1) (nth 0 dist (guessCount - 1)).+1
       else dist)
  else
    Statistics.Make played (Statistics.gamesWon stats) 0 (Statistics.maxStreak stats)
                    (Statistics.guessDistribution stats).

Definition historyEntry (today : string) (game : Game.t) : HistoryEntry.t :=
  HistoryEntry.Make (Game.id game) (Game.targetWord game) (Game.gameStatus game)
    (size (Game.guesses game))
    (Z.sub (if Game.endTime game is Some e then e else 0%Z) (Game.startTime game))
    today (Game.endTime game).

(** [today] is [new Date().toISOString().split('T')[0]]. *)
Definition finalizeGame (now : Z) (today : string) (game : Game.t) (m : t) : t :=
  let s := state m in
  let s1 :=
    State.Make (State.currentGame s)
               (historyEntry today game :: State.gameHistory s)
               (updateStatistics game (State.statistics s))
               (State.settings s) (State.achievements s) (State.lastPlayed s) in
  let s2 := checkAchievements now game s1 in
  let s3 :=
    State.Make (State.currentGame s2) (State.gameHistory s2) (State.statistics s2)
               (State.settings s2) (State.achievements s2) (Some now) in
  saveState (Make s3 (localStorage m)).

(** [None]: the call throws ("game not in progress"), nothing is changed. *)
Definition submitGuess (now : Z) (today : string) (guess : string) (m : t) : option t :=
  match State.currentGame (state m) with
  | None => None
  | Some game =>
      if Game.gameStatus game != playing then None
      else
        let result := evaluateGuess guess (Game.targetWord game) in
        let game1 :=
          Game.Make (Game.id game) (Game.targetWord game) ""%string
            (rcons (Game.guesses game) (GuessEntry.Make guess result now))
            (Game.gameStatus game) (Game.maxGuesses game) (Game.wordLength game)
            (Game.startTime game) (Game.endTime game)
            (foldl (@set_add _) (Game.usedLetters game) (chars guess))
            (Game.wordList game) in
        let game2 := checkGameStatus now game1 in
        let m1 := Make (set_currentGame (Some game2) (state m)) (localStorage m) in
        let m2 := if Game.gameStatus game2 != playing
                  then finalizeGame now today game2 m1 else m1 in
        Some (saveState m2)
  end.


(** One call [submitGuess(guess)], with the clock readings it sees. *)
Record submission := Submit {
  sub_now : Z;
  sub_today : string;
  sub_guess : string
}.

(** A caller that goes on after a throw: the state is as it was. *)
Definition submitOrKeep (m : t) (c : submission) : t :=
  if submitGuess (sub_now c) (sub_today c) (sub_guess c) m is Some m' then m' else m.

Definition submitAll (m : t) (cs : seq submission) : t := foldl submitOrKeep m cs.

(** A manager whose state holds the given counters and history. *)
Definition withHistory (played wonN : nat) (h : seq HistoryEntry.t) : t :=
  Make (State.Make None h (Statistics.Make played wonN 0 0 [:: 0; 0; 0; 0; 0; 0])
                   initialSettings [::] None) None.

(** A history record of a session that took [n] guesses. *)
Definition entry (st : GameStatus) (n : nat) : HistoryEntry.t :=
  HistoryEntry.Make "game" "HELLO" st n 1000%Z "2024-01-01" (Some 1000%Z).

(** A stored [Set] of used letters holds each letter once. *)
Definition wellFormed (s : State.t) : bool :=
  if State.currentGame s is Some game then uniq (Game.usedLetters game) else true.

Definition statistics (m : t) : Statistics.t := State.statistics (state m).
Definition gameHistory (m : t) : seq HistoryEntry.t := State.gameHistory (state m).
Definition achievements (m : t) : seq Achievement.t := State.achievements (state m).

(** A session as the game flow ends it: over, with 1 to 6 guesses. *)
Definition finished (game : Game.t) : bool :=
  [&& Game.gameStatus game != playing, 1 <= size (Game.guesses game)
    & size (Game.guesses game) <= 6].

(** One call [finalizeGame(game)], with the clock readings it sees. *)
Record finalization := Finalize {
  fin_now : Z;
  fin_today : string;
  fin_game : Game.t
}.

Definition finalizeAll (calls : seq finalization) (m : t) : t :=
  foldl (fun m c => finalizeGame (fin_now c) (fin_today c) (fin_game c) m) m calls.

(** How many ['first_win'] achievements are held. *)
Definition firstWins (m : t) : nat :=
  count (fun a => Achievement.id a == "first_win"%string) (achievements m).

(** Whether the history already records the session. *)
Definition recorded (game : Game.t) (m : t) : bool :=
  Game.id game \in [seq HistoryEntry.id h | h <- gameHistory m].

(** The derived view: [{ ...stats, winPercentage, averageGuesses }]. *)
Definition winPercentage (stats : Statistics.t) : float :=
  if 0 < Statistics.gamesPlayed stats then
    Number.round
      (PrimFloat.mul
         (PrimFloat.div (Number.of_nat (Statistics.gamesWon stats))
                        (Number.of_nat (Statistics.gamesPlayed stats)))
         100%float)
  else 0%float.

(** [averageGuesses] is the number 0 or the string [toFixed(1)] builds. *)
Inductive average := AvgNumber of float | AvgString of string.

Definition calculateAverageGuesses (s : State.t) : average :=
  let wonGames := [seq game <- State.gameHistory s | HistoryEntry.gameStatus game == won] in
  if size wonGames == 0 then AvgNumber 0%float
  else
    let totalGuesses :=
      foldl (fun sum game => PrimFloat.add sum (Number.of_nat (HistoryEntry.guessCount game)))
            0%float wonGames in
    AvgString (Number.toFixed1 (PrimFloat.div totalGuesses (Number.of_nat (size wonGames)))).

(** The guess counts of the won games of the history, newest first. *)
Definition wonCounts (s : State.t) : seq nat :=
  [seq HistoryEntry.guessCount game
     | game <- State.gameHistory s & HistoryEntry.gameStatus game == won].

(** The mean of the spec: total over count, as one double division. *)
Definition meanGuesses (s : State.t) : float :=
  PrimFloat.div (Number.sum (wonCounts s)) (Number.of_nat (size (wonCounts s))).

(** The percentage in exact arithmetic: the nearest integer to
    [100 * wonN / played], a tie going up. *)
Definition exactPercentage (played wonN : nat) : nat :=
  (200 * wonN + played) %/ (2 * played).

(** Whether [winPercentage] is that integer for every count of up to [n]
    games. *)
Definition winPercentage_exact_upto (n : nat) : bool :=
  all (fun played =>
         all (fun wonN =>
                PrimFloat.eqb
                  (winPercentage (Statistics.Make played wonN 0 0 [::]))
                  (Number.of_nat (exactPercentage played wonN)))
             (iota 0 played.+1))
      (iota 1 n).

Record statisticsView := View {
  stats : Statistics.t;
  view_winPercentage : float;
  view_averageGuesses : average
}.

Definition getStatistics (m : t) : statisticsView :=
  View (State.statistics (state m))
       (winPercentage (State.statistics (state m)))
       (calculateAverageGuesses (state m)).

End GameStateManager.

(* ------------------------------------------------------------------ *)
(** ** Sample sessions (those of the unit tests) *)

Module Sample.

Definition allCorrect : seq LetterState := nseq 5 correct.
Definition allAbsent : seq LetterState := nseq 5 absent.

(** Won at the first guess. *)
Definition wonGame : Game.t :=
  Game.Make "test-game" "HELLO" "" [:: GuessEntry.Make "HELLO" allCorrect 1000%Z]
            won 6 5 0%Z (Some 1000%Z) [:: "H"; "E"; "L"; "O"]%char [::].

(** Lost after six wrong guesses. *)
Definition lostGame : Game.t :=
  Game.Make "test-game" "HELLO" "" (nseq 6 (GuessEntry.Make "WRONG" allAbsent 1000%Z))
            lost 6 5 0%Z (Some 1000%Z) [:: "W"; "R"; "O"; "N"; "G"]%char [::].

Definition wonCall : GameStateManager.finalization :=
  GameStateManager.Finalize 1000%Z "2024-01-01" wonGame.

Definition lostCall : GameStateManager.finalization :=
  GameStateManager.Finalize 1000%Z "2024-01-01" lostGame.

End Sample.

(* ------------------------------------------------------------------ *)
(** ** Counting letters and marks *)

(** Positions where the guess and the secret hold the same letter. *)
Definition exactMatches (secret guess : string) : nat :=
  count (fun p => p.1 == p.2) (zip (chars guess) (chars secret)).

(** Positions of the guess that hold [L] and are marked [correct] or
    [present] in [res]. *)
Definition credited (guess : string) (res : seq LetterState) (L : ascii) : nat :=
  count (fun p => (p.1 == L) && (p.2 \in [:: correct; present]))
        (zip (chars guess) res).

Definition occurrences (L : ascii) (w : string) : nat := count_mem L (chars w).

(* ------------------------------------------------------------------ *)
(** ** WordleGame: the state it reports and the text it is given *)

Module WordleGameState.

(** The object [getGameState()] returns; [remainingGuesses] is the
    difference [maxGuesses - guesses.length] as a number. *)
Record t := Make {
  targetWord : string;
  currentGuess : string;
  guesses : seq Guess;
  gameStatus : GameStatus;
  maxGuesses : nat;
  wordLength : nat;
  usedLetters : seq ascii;
  remainingGuesses : Z
}.

End WordleGameState.

Definition getGameState (g : WordleGame.t) : WordleGameState.t :=
  WordleGameState.Make (WordleGame.targetWord g) (WordleGame.currentGuess g)
    (WordleGame.guesses g) (WordleGame.gameStatus g) maxGuesses wordLength
    (WordleGame.usedLetters g)
    (Z.sub (Z.of_nat maxGuesses) (Z.of_nat (size (WordleGame.guesses g)))).

(** The characters on which [upper_char] is JavaScript's [toUpperCase]. *)
Definition is_ascii (c : ascii) : bool := nat_of_ascii c < 128.

(** A letter typed is one ASCII character. *)
Definition typesOneLetter (a : WordleGame.action) : bool :=
  if a is WordleGame.AddLetter letter
  then (strlen letter == 1) && all is_ascii (chars letter) else true.

(** Submitting the words [ws] one after the other, each typed letter by
    letter. *)
Definition typeWords (ws : seq string) : seq WordleGame.action :=
  flatten [seq WordleGame.typeWord w | w <- ws].

(** [/^[A-Za-z]$/]. *)
Definition is_letter (c : ascii) : bool := is_lower c || is_upper c.

(** A word of 5 letters, in either case. *)
Definition fiveLetters (w : string) : bool :=
  (strlen w == 5) && all is_letter (chars w).

(* ------------------------------------------------------------------ *)
(** ** GameStateManager: history, resets, export and import *)

Module StateOperations.
Import Json GameStateManager.

Definition resetStatistics (m : t) : t :=
  let s := state m in
  saveState
    (Make (State.Make (State.currentGame s) (State.gameHistory s) initialStatistics
                      (State.settings s) [::] (State.lastPlayed s))
          (localStorage m)).

Definition resetAll (m : t) : t := saveState (Make initialState (localStorage m)).

(** The won entries at the head of the history, which is newest first. *)
Definition leadingWins (h : seq HistoryEntry.t) : nat :=
  find (fun e => HistoryEntry.gameStatus e != won) h.

(** The longest run of won entries in the history. *)
Fixpoint longestWinRun (h : seq HistoryEntry.t) : nat :=
  if h is e :: h' then maxn (leadingWins h) (longestWinRun h') else 0.

(** A history entry of a game won at the first guess. *)
Definition perfect (e : HistoryEntry.t) : bool :=
  (HistoryEntry.gameStatus e == won) && (HistoryEntry.guessCount e == 1).

(** The calls that change the state, with the clock readings and draws
    they see. *)
Inductive operation :=
  | InitializeNewGame of Z & string & nat & seq string
  | SubmitGuess of submission
  | FinalizeGame of finalization
  | ResetStatistics
  | ResetAll.

Definition perform (m : t) (op : operation) : t :=
  match op with
  | InitializeNewGame now gid rnd wl => initializeNewGame now gid rnd wl m
  | SubmitGuess c => submitOrKeep m c
  | FinalizeGame c => finalizeGame (fin_now c) (fin_today c) (fin_game c) m
  | ResetStatistics => resetStatistics m
  | ResetAll => resetAll m
  end.

(** The state a new manager has after its constructor has run
    [loadState] on the item found in [localStorage]. *)
Definition constructed (item : option value) : value :=
  Persistence.loadState (Repr.of_State initialState) item.

(** [JSON.stringify(value)] with no replacer: a [Set] has no enumerable
    property of its own and is written as the empty object. *)
Fixpoint stringify_plain (v : value) : value :=
  match v with
  | VArr vs => VArr [seq stringify_plain x | x <- vs]
  | VObj kvs => VObj [seq (let: (k, x) := kv in (k, stringify_plain x)) | kv <- kvs]
  | VSet vs => VObj [::]
  | _ => v
  end.

(** [exportState()], on the object graph of [this.state]. *)
Definition exportState (st : value) : value := stringify_plain st.

(** [importState(serializedState)]: the answer, the new [this.state] and
    the stored item.  [None] is a text that [JSON.parse] rejects; with no
    reviver, a document is parsed to its own tree. *)
Definition importState (serializedState : option value)
    (current : value) (item : option value) : bool * value * option value :=
  match serializedState with
  | None => (false, current, item)
  | Some importedState =>
      if Persistence.isValidState importedState
      then (true, importedState, Persistence.saveState importedState)
      else (false, current, item)
  end.

End StateOperations.

(** The session object of [WordleGame] and the game record of the state
    manager tell the same story: the controller keeps one of each. *)
Definition mirrors (g : WordleGame.t) (game : Game.t) : bool :=
  [&& Game.targetWord game == WordleGame.targetWord g,
      [seq (GuessEntry.word x, GuessEntry.result x) | x <- Game.guesses game]
      == [seq (word x, result x) | x <- WordleGame.guesses g],
      Game.gameStatus game == WordleGame.gameStatus g,
      Game.usedLetters game == WordleGame.usedLetters g
    & Game.maxGuesses game == maxGuesses].

(* ------------------------------------------------------------------ *)
(** ** VirtualKeyboard and the controller's key colouring *)

Module VirtualKeyboard.

Definition qwerty : seq (seq string) :=
  [:: [:: "Q"; "W"; "E"; "R"; "T"; "Y"; "U"; "I"; "O"; "P"];
      [:: "A"; "S"; "D"; "F"; "G"; "H"; "J"; "K"; "L"];
      [:: "ENTER"; "Z"; "X"; "C"; "V"; "B"; "N"; "M"; "BACK"]]%string.

(** [keys] holds the names of the keys [createKeyboard] builds (their
    elements are not modelled); [letterStates] is the [Map] of the
    options, in insertion order. *)
Record t := Make {
  keys : seq string;
  letterStates : seq (string * LetterState)
}.

(** The keyboard the constructor builds, with the default options. *)
Definition create : t := Make (flatten qwerty) [::].

Fixpoint Map_get (key : string) (m : seq (string * LetterState))
  : option LetterState :=
  match m with
  | [::] => None
  | (k, v) :: m' => if k == key then Some v else Map_get key m'
  end.

Fixpoint Map_set (key : string) (v : LetterState) (m : seq (string * LetterState))
  : seq (string * LetterState) :=
  match m with
  | [::] => [:: (key, v)]
  | (k, x) :: m' => if k == key then (k, v) :: m' else (k, x) :: Map_set key v m'
  end.

Definition updateKeyState (letter : string) (state : LetterState) (kb : t) : t :=
  if toUpperCase letter \in keys kb
  then Make (keys kb) (Map_set (toUpperCase letter) state (letterStates kb))
  else kb.

Definition getKeyState (letter : string) (kb : t) : LetterState :=
  if Map_get (toUpperCase letter) (letterStates kb) is Some state then state
  else unused.

(** [handlePhysicalKey]: the key handed to [handleKeyClick], if any. *)
Definition handlePhysicalKey (key : string) (kb : t) : option string :=
  let keyValue :=
    if key == "Enter"%string then Some "ENTER"%string
    else if key == "Backspace"%string then Some "BACK"%string
    else if (strlen key == 1) && all is_letter (chars key) then Some (toUpperCase key)
    else None in
  if keyValue is Some k then if k \in keys kb then Some k else None else None.

End VirtualKeyboard.

Module WordleController.

(** [newState] is [result[i]], [None] when the result has no entry there. *)
Definition shouldUpdateKeyState (currentState : LetterState)
    (newState : option LetterState) : bool :=
  if newState == Some correct then true
  else if (newState == Some present) && (currentState != correct) then true
  else if (newState == Some absent) && (currentState == unused) then true
  else false.

Definition updateKeyboardState_step (word : string) (result : seq LetterState)
    (kb : VirtualKeyboard.t) (i : nat) : VirtualKeyboard.t :=
  let letter := String (nth Ascii.zero (chars word) i) EmptyString in
  let currentState := VirtualKeyboard.getKeyState letter kb in
  let newState := onth result i in
  if shouldUpdateKeyState currentState newState
  then if newState is Some state then VirtualKeyboard.updateKeyState letter state kb
       else kb
  else kb.

Definition updateKeyboardState (word : string) (result : seq LetterState)
    (kb : VirtualKeyboard.t) : VirtualKeyboard.t :=
  foldl (updateKeyboardState_step word result) kb (iota 0 (strlen word)).

End WordleController.

(** The marks a result gives to the letter [c] of a word. *)
Definition marksOf (c : ascii) (word : string) (result : seq LetterState)
  : seq LetterState :=
  [seq p.2 | p <- zip (chars word) result & p.1 == c].

(** The rank of a state: correct over present over absent over unused. *)
Definition bestRank (states : seq LetterState) : nat :=
  foldr maxn 0 [seq LetterState_code s | s <- states].

(** The keyboard after the controller has coloured it for each of the
    guesses in turn. *)
Definition colourAll (gs : seq Guess) (kb : VirtualKeyboard.t) : VirtualKeyboard.t :=
  foldl (fun kb x => WordleController.updateKeyboardState (word x) (result x) kb) kb gs.

(* ------------------------------------------------------------------ *)
(** ** WordValidator *)

Module WordValidator.

(** The two [Set]s of the validator.  The constructor fills [commonWords]
    from a literal list of words and copies it into [validWords]. *)
Record t := Make {
  validWords : seq string;
  commonWords : seq string
}.

Definition create (words : seq string) : t :=
  let commonWords := foldl (@set_add _) [::] words in
  Make (foldl (@set_add _) [::] commonWords) commonWords.

(** The objects the methods answer with; a property that is not set is
    [None]. *)
Record result := Result {
  valid : bool;
  reason : option string;
  word : option string;
  isCommon : option bool;
  message : option string
}.

Definition validateFormat (word : string) : result :=
  if word == EmptyString then Result false (Some "单词不能为空"%string) None None None
  else
    let upperWord := toUpperCase word in
    if strlen upperWord != 5
    then Result false (Some "单词必须是5个字母"%string) None None None
    else if ~~ ((strlen upperWord == 5) && all is_upper (chars upperWord))
    then Result false (Some "单词只能包含字母"%string) None None None
    else Result true None (Some upperWord) None None.

Definition validateWord (w : string) (v : t) : result :=
  let formatResult := validateFormat w in
  if ~~ valid formatResult then formatResult
  else
    let normalizedWord := odflt EmptyString (word formatResult) in
    if normalizedWord \notin validWords v
    then Result false (Some "不是有效的英文单词"%string) (Some normalizedWord) None None
    else Result true None (Some normalizedWord)
                (Some (normalizedWord \in commonWords v)) None.

Definition addCustomWord (w : string) (v : t) : result * t :=
  let formatResult := validateFormat w in
  if ~~ valid formatResult then (formatResult, v)
  else
    let normalizedWord := odflt EmptyString (word formatResult) in
    (Result true None (Some normalizedWord) None (Some "单词已添加到验证列表"%string),
     Make (set_add (validWords v) normalizedWord) (commonWords v)).

(** What [addWordList] answers (its [message] is built from the two
    counts). *)
Record summary := Summary {
  successful : nat;
  failed : nat;
  results : seq result
}.

Definition addWordList (words : seq string) (v : t) : summary * t :=
  let: (results, v') :=
    foldl (fun acc w =>
             let: (result, v1) := addCustomWord w acc.2 in (rcons acc.1 result, v1))
          ([::], v) words in
  let successful := size [seq r <- results | valid r] in
  (Summary successful (size results - successful) results, v').

Definition removeWord (w : string) (v : t) : result * t :=
  let formatResult := validateFormat w in
  if ~~ valid formatResult then (formatResult, v)
  else
    let normalizedWord := odflt EmptyString (word formatResult) in
    let removed := normalizedWord \in validWords v in
    let v' := Make (rem normalizedWord (validWords v)) (commonWords v) in
    if removed
    then (Result true None (Some normalizedWord) None
                 (Some "单词已从验证列表中移除"%string), v')
    else (Result false (Some "单词不在验证列表中"%string) (Some normalizedWord) None None,
          v').

Definition isValidWord (w : string) (v : t) : bool := valid (validateWord w v).

(** The loop of [getSuggestions] over the words left, with the
    suggestions gathered so far. *)
Fixpoint suggest (upperPattern : string) (limit : nat) (words suggestions : seq string)
  : seq string :=
  match words with
  | [::] => suggestions
  | w :: words' =>
      if String.prefix upperPattern w then
        if limit <= size (rcons suggestions w) then rcons suggestions w
        else suggest upperPattern limit words' (rcons suggestions w)
      else suggest upperPattern limit words' suggestions
  end.

Definition getSuggestions (partialWord : string) (limit : nat) (v : t) : seq string :=
  if partialWord == EmptyString then [::]
  else suggest (toUpperCase partialWord) limit (validWords v) [::].

Record stats := Stats {
  totalWords : nat;
  stats_commonWords : nat;
  customWords : Z;
  sampleWords : seq string
}.

Definition getStats (v : t) : stats :=
  Stats (size (validWords v)) (size (commonWords v))
        (Z.sub (Z.of_nat (size (validWords v))) (Z.of_nat (size (commonWords v))))
        (take 10 (validWords v)).

Definition reset (v : t) : t :=
  Make (foldl (@set_add _) [::] (commonWords v)) (commonWords v).

Definition exportWords (v : t) : seq string := validWords v.

Definition importWords (words : seq string) (v : t) : summary * t :=
  addWordList words (Make [::] (commonWords v)).

(** The calls that change the validator. *)
Inductive operation :=
  | AddCustomWord of string
  | AddWordList of seq string
  | RemoveWord of string
  | Reset
  | ImportWords of seq string.

Definition perform (v : t) (op : operation) : t :=
  match op with
  | AddCustomWord w => (addCustomWord w v).2
  | AddWordList ws => (addWordList ws v).2
  | RemoveWord w => (removeWord w v).2
  | Reset => reset v
  | ImportWords ws => (importWords ws v).2
  end.

End WordValidator.

(* ================================================================== *)
(** * Guess evaluation *)

Example evaluate_HELLO_WORLD :
  GameStateManager.evaluateGuess "WORLD" "HELLO"
  = [:: absent; present; absent; correct; absent].
Proof. by []. Qed.

Example evaluate_same_word :
  GameStateManager.evaluateGuess "HELLO" "HELLO"
  = [:: correct; correct; correct; correct; correct].
Proof. by []. Qed.

(** C1, as stated: the claimed classification of BOOST against BOOKS is not
    what either [evaluateGuess] returns. *)
Lemma evaluateGuess_BOOKS_BOOST_not_claimed :
  WordleGame.evaluateGuess (WordleGame.fresh [::] "BOOKS") "BOOST"
    <> [:: correct; absent; present; correct; correct]
  /\ GameStateManager.evaluateGuess "BOOST" "BOOKS"
    <> [:: correct; absent; present; correct; correct].
Proof. by split. Qed.

(** C1, amended: for the secret BOOKS and the guess BOOST both
    [evaluateGuess] methods return correct, correct, correct, present,
    absent: B, O, O match in place, S is in the word at another place, T is
    not in the word. *)
Theorem evaluateGuess_BOOKS_BOOST :
  WordleGame.evaluateGuess (WordleGame.fresh [::] "BOOKS") "BOOST"
    = [:: correct; correct; correct; present; absent]
  /\ GameStateManager.evaluateGuess "BOOST" "BOOKS"
    = [:: correct; correct; correct; present; absent].
Proof. by split. Qed.


(** ** Counting over positions *)

Section IndexCount.

Variable T : Type.

Lemma count_nth (d : T) (p : pred T) (s : seq T) :
  count p s = count (fun i => p (nth d s i)) (iota 0 (size s)).
Proof. by rewrite -{1}(mkseq_nth d s) /mkseq count_map. Qed.

Lemma count_iota_upd (p p' : pred nat) (k m n : nat) :
  m <= k < m + n -> (forall i, i != k -> p' i = p i) ->
  count p' (iota m n) + p k = count p (iota m n) + p' k.
Proof.
elim: n m => [|n IH] m; first by rewrite addn0; case: ltngtP.
move=> /andP[mk kn] same /=.
case: (eqVneq m k) => [mk'|nmk].
- subst m. rewrite (@eq_in_count _ p' p (iota k.+1 n)).
  + by move=> i; rewrite mem_iota => /andP[mi _]; apply: same; rewrite gtn_eqF.
  + by rewrite addnAC [RHS]addnAC [p k + _]addnC.
- rewrite (same _ nmk) -!addnA; congr (_ + _); apply: IH => //.
  by rewrite ltn_neqAle nmk mk /= addSnnS.
Qed.

Lemma count_set_nth (d y : T) (p : pred T) (s : seq T) (i : nat) :
  i < size s -> count p (set_nth d s i y) + p (nth d s i) = count p s + p y.
Proof.
elim: s i => [|x s IH] [|i] //= lt_i.
- by rewrite addnAC [RHS]addnAC [p y + _]addnC.
- by rewrite -!addnA; congr (_ + _); apply: IH.
Qed.

End IndexCount.

Section MkseqUpdate.

Variable T : Type.

Lemma set_nth_mkseq (x0 y : T) (f : nat -> T) (n k : nat) :
  k < n -> set_nth x0 (mkseq f n) k y = mkseq (fun i => if i == k then y else f i) n.
Proof.
move=> lt_k; apply: (@eq_from_nth _ x0).
  by rewrite size_set_nth !size_mkseq; apply/maxn_idPr.
move=> i; rewrite size_set_nth size_mkseq (maxn_idPr lt_k) => lt_i.
by rewrite nth_set_nth /= !nth_mkseq.
Qed.

End MkseqUpdate.

Section EvaluateCorrect.
Import Evaluator.

Variables (n : nat) (tw gw : seq ascii).
Hypothesis size_tw : size tw = n.
Hypothesis size_gw : size gw = n.

Let d : ascii := Ascii.zero.
Let hit (i : nat) : bool := nth d gw i == nth d tw i.

Let after1 (k : nat) : work :=
  Work (mkseq (fun i => if (i < k) && hit i then correct else absent) n)
       (mkseq (fun i => if (i < k) && hit i then Null else Chr (nth d tw i)) n)
       (mkseq (fun i => if (i < k) && hit i then Null else Chr (nth d gw i)) n).

Lemma split_mkseq (w : seq ascii) :
  [seq Chr c | c <- w] = mkseq (fun i => Chr (nth d w i)) (size w).
Proof.
apply: (@eq_from_nth _ Undef); rewrite size_map ?size_mkseq // => i lt_i.
by rewrite (nth_map d) // nth_mkseq.
Qed.

Lemma pass1_start :
  Work (nseq n absent) [seq Chr c | c <- tw] [seq Chr c | c <- gw] = after1 0.
Proof.
rewrite /after1 !split_mkseq size_tw size_gw; congr Work.
apply: (@eq_from_nth _ absent); rewrite size_nseq ?size_mkseq // => i lt_i.
by rewrite nth_nseq lt_i nth_mkseq.
Qed.

Lemma lt_succ_hit (k i : nat) :
  (i < k.+1) && hit i = if i == k then hit k else (i < k) && hit i.
Proof.
by rewrite ltnS leq_eqVlt; case: eqP => [->|] //=; rewrite ltnn.
Qed.

Lemma pass1_step_after1 (k : nat) : k < n -> pass1_step (after1 k) k = after1 k.+1.
Proof.
move=> lt_k; rewrite /pass1_step /= !nth_mkseq // ltnn /=.
rewrite (_ : (Chr (nth d gw k) == Chr (nth d tw k)) = hit k) //.
case hk: (hit k); rewrite /after1 ?set_nth_mkseq //; congr Work;
  by apply: eq_mkseq => i; rewrite lt_succ_hit hk; case: eqP => // ->; rewrite ltnn.
Qed.

Lemma pass1_after1 (k : nat) :
  k <= n -> foldl pass1_step (after1 0) (iota 0 k) = after1 k.
Proof.
elim: k => [|k IH] // lt_k.
rewrite -{1}addn1 iotaD foldl_cat IH ?(ltnW lt_k) // add0n /=.
exact: pass1_step_after1.
Qed.

(** What the first loop leaves: exact matches are [correct] and used up. *)
Lemma pass1_closed :
  foldl pass1_step (Work (nseq n absent) [seq Chr c | c <- tw] [seq Chr c | c <- gw])
        (iota 0 n)
  = Work (mkseq (fun i => if hit i then correct else absent) n)
         (mkseq (fun i => if hit i then Null else Chr (nth d tw i)) n)
         (mkseq (fun i => if hit i then Null else Chr (nth d gw i)) n).
Proof.
rewrite pass1_start pass1_after1 // /after1.
congr Work; apply/eq_in_map => i; rewrite mem_iota add0n => /andP[_ ->] //.
Qed.

Let R1 := mkseq (fun i => if hit i then correct else absent) n.
Let T1 := mkseq (fun i => if hit i then Null else Chr (nth d tw i)) n.
Let G1 := mkseq (fun i => if hit i then Null else Chr (nth d gw i)) n.

(** Positions marked [present] whose guessed letter is [L]. *)
Let displaced (r : seq LetterState) (L : ascii) : nat :=
  count (fun i => (nth absent r i == present) && (nth d gw i == L)) (iota 0 n).

(** The invariant of the second loop, before iteration [k]. *)
Record pass2_inv (k : nat) (w : work) : Prop := Pass2Inv {
  inv_guess : guessLetters w = G1;
  inv_size_result : size (result w) = n;
  inv_size_target : size (targetLetters w) = n;
  inv_todo : forall i, k <= i -> nth absent (result w) i = nth absent R1 i;
  inv_correct : forall i,
    (nth absent (result w) i == correct) = (nth absent R1 i == correct);
  inv_count : forall L,
    displaced (result w) L + count (pred1 (Chr L)) (targetLetters w)
    = count (pred1 (Chr L)) T1
}.

Lemma nth_R1 (i : nat) : i < n -> nth absent R1 i = if hit i then correct else absent.
Proof. by move=> lt_i; rewrite nth_mkseq. Qed.

Lemma pass2_inv_start : pass2_inv 0 (Work R1 T1 G1).
Proof.
split=> //=; rewrite ?size_mkseq // => L.
rewrite /displaced (@eq_in_count _ _ pred0) ?count_pred0 // => i.
by rewrite mem_iota add0n /= => lt_i; rewrite nth_R1 //; case: (hit i).
Qed.

Lemma pass2_inv_step (k : nat) (w : work) :
  k < n -> pass2_inv k w -> pass2_inv k.+1 (pass2_step w k).
Proof.
move=> lt_k [Hg Hsr Hst Htodo Hcorr Hcnt].
have keep : pass2_inv k.+1 w.
  by split=> // i /ltnW; apply: Htodo.
rewrite /pass2_step Hg nth_mkseq //.
case hk: (hit k) => //=.
rewrite /indexOf /=.
case: ifP => // found.
have Rk : nth absent (result w) k = absent by rewrite Htodo // nth_R1 // hk.
split=> /=.
- by [].
- by rewrite size_set_nth Hsr; apply/maxn_idPr.
- by rewrite size_set_nth Hst; apply/maxn_idPr; rewrite -Hst.
- by move=> i lt_i; rewrite nth_set_nth /= gtn_eqF // Htodo // ltnW.
- move=> i; rewrite nth_set_nth /=; case: (i =P k) => [->|_]; last exact: Hcorr.
  by rewrite nth_R1 // hk.
- move=> L; rewrite -Hcnt.
  have := count_set_nth Undef Null (pred1 (Chr L)) found.
  rewrite nth_index -?index_mem //= addn0 => <-.
  have := @count_iota_upd
    (fun i => (nth absent (result w) i == present) && (nth d gw i == L))
    (fun i => (nth absent (set_nth absent (result w) k present) i == present)
              && (nth d gw i == L)) k 0 n.
  rewrite add0n /= Rk /= nth_set_nth /= eqxx /= addn0.
  rewrite -/(displaced _ _) -/(displaced (result w) _) => ->.
  + by [].
  + by move=> i /negbTE ne_i; rewrite nth_set_nth /= ne_i.
  + by rewrite -addnA [(_ == L) + _]addnC.
Qed.

Lemma pass2_inv_iter (k : nat) :
  k <= n -> pass2_inv k (foldl pass2_step (Work R1 T1 G1) (iota 0 k)).
Proof.
elim: k => [|k IH] lt_k; first exact: pass2_inv_start.
rewrite -{2}addn1 iotaD foldl_cat add0n /=.
by apply: pass2_inv_step => //; apply: IH; apply: ltnW.
Qed.

Let final : work :=
  pass2 n (pass1 n (Work (nseq n absent) [seq Chr c | c <- tw] [seq Chr c | c <- gw])).

Lemma final_inv : pass2_inv n final.
Proof. by rewrite /final /pass1 pass1_closed; apply: pass2_inv_iter. Qed.

(** The [correct] entries are exactly the positions where the two words agree. *)
Lemma final_correct :
  count (pred1 correct) (result final) = count hit (iota 0 n).
Proof.
have [_ Hsr _ _ Hcorr _] := final_inv.
rewrite (count_nth absent) Hsr; apply: eq_in_count => i.
rewrite mem_iota add0n /= => lt_i.
by rewrite Hcorr nth_R1 //; case: (hit i).
Qed.

(** Per letter, the entries marked [correct] or [present] never outnumber
    the occurrences of the letter in the secret word. *)
Lemma final_credit (L : ascii) :
  count (fun i => (nth d gw i == L)
                  && (nth absent (result final) i \in [:: correct; present]))
        (iota 0 n)
  <= count_mem L tw.
Proof.
have [_ Hsr _ _ Hcorr Hcnt] := final_inv.
have -> : count_mem L tw
  = count (fun i => hit i && (nth d gw i == L)) (iota 0 n)
    + count (pred1 (Chr L)) T1.
  rewrite (count_nth d) size_tw /T1 /mkseq count_map -count_predUI.
  rewrite [X in _ + X](@eq_in_count _ _ pred0) ?count_pred0 ?addn0.
  - by move=> i _ /=; case: (hit i); rewrite ?andbF.
  - apply: eq_count => i /=; rewrite /hit.
    by case: (nth d gw i =P nth d tw i) => [->|_] /=; rewrite ?orbF.
have -> : count (fun i => (nth d gw i == L)
                  && (nth absent (result final) i \in [:: correct; present]))
        (iota 0 n)
  = count (fun i => hit i && (nth d gw i == L)) (iota 0 n)
    + displaced (result final) L.
  rewrite /displaced -count_predUI.
  rewrite [X in _ + X](@eq_in_count _ _ pred0) ?count_pred0 ?addn0.
  - move=> i; rewrite mem_iota add0n /= => lt_i.
    have := Hcorr i; rewrite nth_R1 //.
    by case: (hit i); case: (nth absent (result final) i) => //=; rewrite ?andbF.
  - apply: eq_in_count => i; rewrite mem_iota add0n /= => lt_i.
    have := Hcorr i; rewrite nth_R1 // !inE.
    by case: (hit i); case: (nth absent (result final) i);
       case: (nth d gw i == L).
by rewrite -Hcnt addnA leq_addr.
Qed.


Lemma final_size : size (result final) = n.
Proof. by case: final_inv. Qed.

End EvaluateCorrect.

Lemma count_zip_nth (A B : Type) (da : A) (db : B) (p : pred (A * B))
    (a : seq A) (b : seq B) :
  size a = size b ->
  count p (zip a b) = count (fun i => p (nth da a i, nth db b i)) (iota 0 (size a)).
Proof.
move=> eq_sz; rewrite (count_nth (da, db)) size_zip -eq_sz minnn.
by apply: eq_in_count => i _; rewrite nth_zip.
Qed.

Lemma isValidWord_size (w : string) : WordleGame.isValidWord w -> size (chars w) = 5.
Proof. by case/andP => /eqP. Qed.

(** The two [evaluateGuess] methods are the same function of the secret
    word and the guess. *)
Lemma evaluateGuess_same (g : WordleGame.t) (guess : string) :
  WordleGame.evaluateGuess g guess
  = GameStateManager.evaluateGuess guess (WordleGame.targetWord g).
Proof. by []. Qed.

(** C2: for a secret word and a guess of 5 uppercase letters each, the
    result of [evaluateGuess] (the same for both classes) has as many
    [correct] entries as there are
    positions where the guess and the secret agree, and for every letter the
    positions of the guess holding it that are marked [correct] or [present]
    are at most the occurrences of the letter in the secret. *)
Theorem evaluateGuess_counts (g : WordleGame.t) (guess : string) :
  WordleGame.isValidWord (WordleGame.targetWord g) ->
  WordleGame.isValidWord guess ->
  [/\ GameStateManager.evaluateGuess guess (WordleGame.targetWord g)
      = WordleGame.evaluateGuess g guess,
      count (pred1 correct) (WordleGame.evaluateGuess g guess)
      = exactMatches (WordleGame.targetWord g) guess
    & forall L : ascii,
        credited guess (WordleGame.evaluateGuess g guess) L
        <= occurrences L (WordleGame.targetWord g)].
Proof.
move=> /isValidWord_size sz_t /isValidWord_size sz_g.
rewrite /GameStateManager.evaluateGuess.
rewrite /WordleGame.evaluateGuess /Evaluator.evaluate /Evaluator.init /split.
split=> [||L] //.
- rewrite (final_correct sz_t sz_g) /exactMatches.
  by rewrite (count_zip_nth Ascii.zero Ascii.zero) ?sz_g ?sz_t.
- rewrite /credited (count_zip_nth Ascii.zero absent) ?sz_g ?(final_size sz_t sz_g) //.
  exact: (final_credit sz_t sz_g).
Qed.

Lemma evaluateGuess_counts_witness :
  [/\ GameStateManager.evaluateGuess "BOOST" "BOOKS"
      = WordleGame.evaluateGuess (WordleGame.fresh [::] "BOOKS") "BOOST",
      count (pred1 correct)
            (WordleGame.evaluateGuess (WordleGame.fresh [::] "BOOKS") "BOOST")
      = exactMatches "BOOKS" "BOOST"
    & forall L : ascii,
        credited "BOOST"
                 (WordleGame.evaluateGuess (WordleGame.fresh [::] "BOOKS") "BOOST") L
        <= occurrences L "BOOKS"].
Proof.
exact: (@evaluateGuess_counts (WordleGame.fresh [::] "BOOKS") "BOOST" erefl erefl).
Defined.


(* ================================================================== *)
(** * The session state machine *)

Section Session.
Import WordleGame.

Variable target : string.

Let secret (x : Guess) : bool := word x == target.

(** The status the recorded guesses call for. *)
Let statusOf (gs : seq Guess) : GameStatus :=
  if has secret gs then won else if maxGuesses <= size gs then lost else playing.

Record session_inv (g : t) : Prop := SessionInv {
  inv_target : targetWord g = target;
  inv_status : gameStatus g = statusOf (guesses g);
  inv_bound : size (guesses g) <= maxGuesses
}.

Lemma session_inv_fresh (wl : seq string) : session_inv (fresh wl target).
Proof. by []. Qed.

Lemma initializeGame_fresh (rnd : nat) (g : t) :
  initializeGame rnd g = fresh (wordList g) (selectRandomWord rnd (wordList g)).
Proof. by []. Qed.

Lemma checkGameStatus_rcons (gs : seq Guess) (x : Guess) :
  ~~ has secret gs ->
  checkGameStatus target (rcons gs x) playing = statusOf (rcons gs x).
Proof.
move=> /negbTE no_hit.
by rewrite /checkGameStatus /statusOf size_rcons last_rcons has_rcons no_hit orbF.
Qed.

Lemma session_inv_step (g : t) (a : action) :
  session_inv g -> session_inv (step g a).2.
Proof.
case=> Ht Hs Hb; case: a => [letter||] /=.
- rewrite /addLetter; case: ifP => // _; case: ifP => // _.
- rewrite /removeLetter; case: ifP => // _; case: ifP => // _.
- rewrite /submitGuess; case: ifP => // /negbFE /eqP play.
  case: ifP => // _; case: ifP => // _.
  move: Hs; rewrite play /statusOf.
  case hit: (has secret (guesses g)) => //.
  case: (leqP maxGuesses (size (guesses g))) => // lt_gs _.
  split=> //=; last by rewrite size_rcons.
  by rewrite Ht checkGameStatus_rcons ?hit.
Qed.

Lemma session_inv_run (g : t) (acts : seq action) :
  session_inv g -> session_inv (run g acts).
Proof.
elim: acts g => [|a acts IH] g Hg //=.
by apply: IH; apply: session_inv_step.
Qed.

(** Once the session is over, every operation answers [false] and leaves
    the session as it is. *)
Lemma terminal_step (g : t) (a : action) :
  gameStatus g != playing -> step g a = (false, g).
Proof.
by case: a => [letter||] over /=;
   rewrite /addLetter /removeLetter /submitGuess over.
Qed.

Lemma session_inv_lost (g : t) :
  session_inv g ->
  gameStatus g = lost
  <-> size (guesses g) = maxGuesses /\ all (fun x => word x != target) (guesses g).
Proof.
case=> _ -> Hb; rewrite /statusOf.
have -> : all (fun x => word x != target) (guesses g) = ~~ has secret (guesses g).
  by rewrite -all_predC.
case: (has secret _) => /=; first by split=> // -[].
case: (leqP maxGuesses (size (guesses g))) => [ge_gs|lt_gs]; split=> //.
- by move=> _; split=> //; apply/eqP; rewrite eqn_leq Hb.
- by case=> sz _; move: lt_gs; rewrite sz ltnn.
Qed.

Lemma session_inv_won (g : t) :
  session_inv g ->
  gameStatus g = won <-> has (fun x => word x == target) (guesses g).
Proof.
case=> _ -> _; rewrite /statusOf -/secret.
by case: (has secret _) => //; case: (leqP maxGuesses (size (guesses g))).
Qed.

End Session.

Lemma terminal_run (g : WordleGame.t) (acts : seq WordleGame.action) :
  WordleGame.gameStatus g != playing -> WordleGame.run g acts = g.
Proof.
by move=> over; elim: acts => //= a acts IH; rewrite terminal_step.
Qed.

(** Both outcomes are reached: six wrong words lose, the secret word wins. *)
Example session_lost :
  WordleGame.gameStatus
    (WordleGame.play [::] "HELLO"
       (flatten (nseq 6 (WordleGame.typeWord "WORLD")))) = lost.
Proof. by []. Qed.

Example session_won :
  WordleGame.gameStatus
    (WordleGame.play [::] "HELLO"
       (WordleGame.typeWord "WORLD" ++ WordleGame.typeWord "hello")) = won.
Proof. by []. Qed.

(* ================================================================== *)
(** * The reported letter state *)

Section LetterStatus.
Import WordleGame.

Lemma letterStatus_in_cat (u : string) (gs gs' : seq Guess) :
  has (fun x => String.index 0 u (word x) != None) gs ->
  letterStatus_in u (gs ++ gs') = letterStatus_in u gs.
Proof.
elim: gs => [|x gs IH] //=.
by case: (String.index 0 u (word x)).
Qed.

Lemma guesses_step (g : t) (a : action) :
  exists gs', guesses (step g a).2 = guesses g ++ gs'.
Proof.
case: a => [letter||] /=; rewrite /addLetter /removeLetter /submitGuess.
- by exists [::]; rewrite cats0; do ?case: ifP.
- by exists [::]; rewrite cats0; do ?case: ifP.
- case: ifP => _; first by exists [::]; rewrite cats0.
  case: ifP => _; first by exists [::]; rewrite cats0.
  case: ifP => _; first by exists [::]; rewrite cats0.
  by rewrite /= -cats1; eexists.
Qed.

Lemma guesses_run (g : t) (acts : seq action) :
  exists gs', guesses (run g acts) = guesses g ++ gs'.
Proof.
elim: acts g => [|a acts IH] g /=; first by exists [::]; rewrite cats0.
have [gs1 E1] := IH (step g a).2; have [gs2 E2] := guesses_step g a.
by exists (gs2 ++ gs1); rewrite catA -E2 -E1.
Qed.

(** Once a recorded guess contains the letter, the state reported for it
    is settled: no later move changes it, up or down. *)
Lemma getLetterStatus_settled (g : t) (letter : string) (acts : seq action) :
  has (fun x => String.index 0 (toUpperCase letter) (word x) != None) (guesses g) ->
  getLetterStatus (run g acts) letter = getLetterStatus g letter.
Proof.
move=> seen; rewrite /getLetterStatus.
by have [gs' ->] := guesses_run g acts; apply: letterStatus_in_cat.
Qed.

End LetterStatus.

(** C4, at the failing input: with the secret HELLO, the guess LAAAA
    reports L as [present]; the next guess AALAA has L in its right place
    ([correct]), yet the state reported for L stays [present], not the
    better of the two. *)
Theorem getLetterStatus_not_upgraded :
  WordleGame.getLetterStatus
    (WordleGame.play [::] "HELLO" (WordleGame.typeWord "LAAAA")) "L"
    = Some present
  /\ WordleGame.evaluateGuess
       (WordleGame.play [::] "HELLO" (WordleGame.typeWord "LAAAA")) "AALAA"
     = [:: absent; absent; correct; absent; absent]
  /\ WordleGame.getLetterStatus
       (WordleGame.play [::] "HELLO"
          (WordleGame.typeWord "LAAAA" ++ WordleGame.typeWord "AALAA")) "L"
     = Some present.
Proof. by []. Qed.


(* ================================================================== *)
(** * Statistics *)

Section Finalize.
Import GameStateManager.

Variables (now : Z) (today : string) (game : Game.t) (m : t).

Lemma statistics_finalizeGame :
  statistics (finalizeGame now today game m) = updateStatistics game (statistics m).
Proof. by []. Qed.

Lemma gameHistory_finalizeGame :
  gameHistory (finalizeGame now today game m)
  = historyEntry today game :: gameHistory m.
Proof. by []. Qed.

End Finalize.

(** C6: finalizing a finished session adds 1 to [gamesPlayed]; for a won
    session [gamesWon] and [currentStreak] grow by 1, [maxStreak] becomes
    the larger of itself and the new [currentStreak], and the slot of
    [guessDistribution] at index (number of guesses - 1) grows by 1, the
    other slots being kept; for a lost session [currentStreak] becomes 0
    and [gamesWon] and [guessDistribution] are unchanged. *)
Theorem finalizeGame_statistics (now : Z) (today : string) (game : Game.t)
    (m : GameStateManager.t) :
  GameStateManager.finished game ->
  Statistics.gamesPlayed (GameStateManager.statistics
                            (GameStateManager.finalizeGame now today game m))
    = (Statistics.gamesPlayed (GameStateManager.statistics m)).+1
  /\ (Game.gameStatus game = won ->
      [/\ Statistics.gamesWon (GameStateManager.statistics
                                 (GameStateManager.finalizeGame now today game m))
            = (Statistics.gamesWon (GameStateManager.statistics m)).+1,
          Statistics.currentStreak (GameStateManager.statistics
                                      (GameStateManager.finalizeGame now today game m))
            = (Statistics.currentStreak (GameStateManager.statistics m)).+1,
          Statistics.maxStreak (GameStateManager.statistics
                                  (GameStateManager.finalizeGame now today game m))
            = maxn (Statistics.maxStreak (GameStateManager.statistics m))
                   (Statistics.currentStreak (GameStateManager.statistics
                      (GameStateManager.finalizeGame now today game m))),
          nth 0 (Statistics.guessDistribution (GameStateManager.statistics
                   (GameStateManager.finalizeGame now today game m)))
                (size (Game.guesses game) - 1)
            = (nth 0 (Statistics.guessDistribution (GameStateManager.statistics m))
                     (size (Game.guesses game) - 1)).+1
        & forall j, j != size (Game.guesses game) - 1 ->
            nth 0 (Statistics.guessDistribution (GameStateManager.statistics
                     (GameStateManager.finalizeGame now today game m))) j
            = nth 0 (Statistics.guessDistribution (GameStateManager.statistics m)) j])
  /\ (Game.gameStatus game = lost ->
      [/\ Statistics.currentStreak (GameStateManager.statistics
                                      (GameStateManager.finalizeGame now today game m)) = 0,
          Statistics.gamesWon (GameStateManager.statistics
                                 (GameStateManager.finalizeGame now today game m))
            = Statistics.gamesWon (GameStateManager.statistics m)
        & Statistics.guessDistribution (GameStateManager.statistics
                                          (GameStateManager.finalizeGame now today game m))
            = Statistics.guessDistribution (GameStateManager.statistics m)]).
Proof.
case/and3P=> _ ge1 le6.
rewrite statistics_finalizeGame /GameStateManager.updateStatistics.
split; first by case: ifP.
split=> ->; rewrite /= ?ge1 ?le6 /=; split=> //.
- by rewrite nth_set_nth /= eqxx.
- by move=> j /negbTE ne_j; rewrite nth_set_nth /= ne_j.
Qed.

Lemma finalizeGame_statistics_witness :
  Statistics.gamesPlayed
    (GameStateManager.statistics
       (GameStateManager.finalizeGame 1000 "2024-01-01" Sample.wonGame
          GameStateManager.create)) = 1.
Proof.
by have [-> _] := @finalizeGame_statistics 1000%Z "2024-01-01" Sample.wonGame
                    GameStateManager.create erefl.
Defined.

(** ** The invariant of the statistics *)

Section StatisticsInvariant.
Import GameStateManager.

Record stats_inv (s : Statistics.t) : Prop := StatsInv {
  inv_streak : Statistics.currentStreak s <= Statistics.maxStreak s;
  inv_won : Statistics.gamesWon s <= Statistics.gamesPlayed s;
  inv_slots : size (Statistics.guessDistribution s) = 6;
  inv_sum : sumn (Statistics.guessDistribution s) = Statistics.gamesWon s
}.

Lemma stats_inv_initial : stats_inv initialStatistics.
Proof. by []. Qed.

Lemma stats_inv_update (game : Game.t) (s : Statistics.t) :
  finished game -> stats_inv s -> stats_inv (updateStatistics game s).
Proof.
case/and3P=> _ ge1 le6 [Hstreak Hwon Hslots Hsum].
rewrite /updateStatistics; case: ifP => _; split=> //=.
- exact: leq_maxr.
- by rewrite ge1 le6 /= size_set_nth Hslots; apply/maxn_idPr; rewrite subn1 prednK.
- by rewrite ge1 le6 /= sumn_set_nth0 -[(nth _ _ _).+1]add1n addnA addnK addn1 Hsum.
- exact: leq_trans Hwon (leqnSn _).
Qed.

Lemma stats_inv_finalizeAll (calls : seq finalization) (m : t) :
  all (fun c => finished (fin_game c)) calls ->
  stats_inv (statistics m) -> stats_inv (statistics (finalizeAll calls m)).
Proof.
elim: calls m => [|c calls IH] m //= /andP[fin_c fin_calls] inv_m.
by apply: IH => //; rewrite statistics_finalizeGame; apply: stats_inv_update.
Qed.

End StatisticsInvariant.

(** C10: after any sequence of finalizations of finished sessions, started
    from the initial statistics, [maxStreak] is at least [currentStreak],
    [gamesWon] is at most [gamesPlayed], and the six slots of
    [guessDistribution] add up to [gamesWon]. *)
Theorem statistics_invariant (calls : seq GameStateManager.finalization)
    (m : GameStateManager.t) :
  GameStateManager.statistics m = GameStateManager.initialStatistics ->
  all (fun c => GameStateManager.finished (GameStateManager.fin_game c)) calls ->
  [/\ Statistics.currentStreak
        (GameStateManager.statistics (GameStateManager.finalizeAll calls m))
      <= Statistics.maxStreak
           (GameStateManager.statistics (GameStateManager.finalizeAll calls m)),
      Statistics.gamesWon
        (GameStateManager.statistics (GameStateManager.finalizeAll calls m))
      <= Statistics.gamesPlayed
           (GameStateManager.statistics (GameStateManager.finalizeAll calls m)),
      size (Statistics.guessDistribution
              (GameStateManager.statistics (GameStateManager.finalizeAll calls m))) = 6
    & sumn (Statistics.guessDistribution
              (GameStateManager.statistics (GameStateManager.finalizeAll calls m)))
      = Statistics.gamesWon
          (GameStateManager.statistics (GameStateManager.finalizeAll calls m))].
Proof.
move=> init fin_calls.
have [] := @stats_inv_finalizeAll calls m fin_calls; last by [].
by rewrite init; apply: stats_inv_initial.
Qed.

Lemma statistics_invariant_witness :
  sumn (Statistics.guessDistribution
          (GameStateManager.statistics
             (GameStateManager.finalizeAll
                [:: Sample.wonCall; Sample.lostCall; Sample.wonCall]
                GameStateManager.create)))
  = 2.
Proof.
by have [_ _ _ ->] := @statistics_invariant
     [:: Sample.wonCall; Sample.lostCall; Sample.wonCall]
     GameStateManager.create erefl erefl.
Defined.

(** ** Achievements *)

Section FirstWin.
Import GameStateManager.

Lemma firstWins_finalizeGame (now : Z) (today : string) (game : Game.t) (m : t) :
  firstWins (finalizeGame now today game m)
  = firstWins m
    + ((Statistics.gamesWon (updateStatistics game (statistics m)) == 1)
       && (firstWins m == 0)).
Proof.
rewrite /firstWins /achievements /finalizeGame /= /checkAchievements /=.
rewrite /hasAchievement /= !count_cat has_count lt0n negbK.
set c := count _ _; rewrite /statistics.
by case: ifP => _ /=; rewrite ?addn0;
   do 3 (case: ifP => _ /=; rewrite ?addn0 ?add0n).
Qed.

Lemma gamesWon_update (game : Game.t) (s : Statistics.t) :
  Statistics.gamesWon (updateStatistics game s)
  = Statistics.gamesWon s + (Game.gameStatus game == won).
Proof. by rewrite /updateStatistics; case: ifP => _ /=; rewrite ?addn1 ?addn0. Qed.

(** Held exactly when a game has been won. *)
Lemma firstWins_finalizeAll (calls : seq finalization) (m : t) :
  firstWins m = (0 < Statistics.gamesWon (statistics m)) ->
  firstWins (finalizeAll calls m)
  = (0 < Statistics.gamesWon (statistics (finalizeAll calls m))).
Proof.
elim: calls m => [|c calls IH] m //= Hm; apply: IH.
rewrite firstWins_finalizeGame statistics_finalizeGame Hm gamesWon_update.
by case: (Statistics.gamesWon _) => [|[|n]]; case: (_ == won).
Qed.

Lemma finalizeAll_rcons (calls : seq finalization) (c : finalization) (m : t) :
  finalizeAll (rcons calls c) m
  = finalizeGame (fin_now c) (fin_today c) (fin_game c) (finalizeAll calls m).
Proof. by rewrite /finalizeAll -cats1 foldl_cat. Qed.

End FirstWin.

(** C7: over any sequence of finalizations on a new manager, the
    achievement ['first_win'] is held exactly when a game has been won: it
    is added by the finalization that takes [gamesWon] from 0 to 1, and by
    no other, so it is never held twice. *)
Theorem first_win_once (calls : seq GameStateManager.finalization)
    (c : GameStateManager.finalization) :
  GameStateManager.firstWins
    (GameStateManager.finalizeAll calls GameStateManager.create)
  = (0 < Statistics.gamesWon
           (GameStateManager.statistics
              (GameStateManager.finalizeAll calls GameStateManager.create)))
  /\ GameStateManager.firstWins
       (GameStateManager.finalizeAll (rcons calls c) GameStateManager.create)
     = GameStateManager.firstWins
         (GameStateManager.finalizeAll calls GameStateManager.create)
       + ((Statistics.gamesWon
             (GameStateManager.statistics
                (GameStateManager.finalizeAll calls GameStateManager.create)) == 0)
          && (Statistics.gamesWon
                (GameStateManager.statistics
                   (GameStateManager.finalizeAll (rcons calls c)
                      GameStateManager.create)) == 1)).
Proof.
have Hm := @firstWins_finalizeAll calls GameStateManager.create erefl.
split=> //.
rewrite finalizeAll_rcons firstWins_finalizeGame statistics_finalizeGame Hm.
rewrite gamesWon_update.
by case: (Statistics.gamesWon _) => [|[|n]]; case: (_ == won).
Qed.

Example first_win_after_three_wins :
  GameStateManager.firstWins
    (GameStateManager.finalizeAll
       [:: Sample.lostCall; Sample.wonCall; Sample.wonCall; Sample.wonCall]
       GameStateManager.create) = 1.
Proof. by []. Qed.

(** ** Finalizing twice *)

(** C5, as stated: a session already recorded in the history is not
    rejected by [finalizeGame]; the won sample session, finalized a second
    time, is counted and recorded again. *)
Lemma finalizeGame_twice_not_rejected :
  ~ (forall (now : Z) (today : string) (game : Game.t) (m : GameStateManager.t),
       GameStateManager.recorded game m ->
       GameStateManager.statistics (GameStateManager.finalizeGame now today game m)
         = GameStateManager.statistics m
       /\ GameStateManager.gameHistory (GameStateManager.finalizeGame now today game m)
         = GameStateManager.gameHistory m).
Proof.
move=> guard.
have [] := guard 1000%Z "2024-01-01"%string Sample.wonGame
             (GameStateManager.finalizeGame 1000%Z "2024-01-01" Sample.wonGame
                GameStateManager.create) erefl.
by [].
Qed.

Example finalizeGame_two_calls :
  Statistics.gamesPlayed
    (GameStateManager.statistics
       (GameStateManager.finalizeAll [:: Sample.wonCall; Sample.wonCall]
          GameStateManager.create)) = 2
  /\ [seq HistoryEntry.id h
        | h <- GameStateManager.gameHistory
                 (GameStateManager.finalizeAll [:: Sample.wonCall; Sample.wonCall]
                    GameStateManager.create)]
     = [:: "test-game"; "test-game"]%string.
Proof. by []. Qed.

Section SubmitGuess.
Import GameStateManager.

Variables (now : Z) (today : string) (guess : string).

(** The session [submitGuess] works on, once the guess is recorded and the
    status checked. *)
Definition guessed (game : Game.t) : Game.t :=
  checkGameStatus now
    (Game.Make (Game.id game) (Game.targetWord game) ""%string
       (rcons (Game.guesses game)
              (GuessEntry.Make guess (evaluateGuess guess (Game.targetWord game)) now))
       (Game.gameStatus game) (Game.maxGuesses game) (Game.wordLength game)
       (Game.startTime game) (Game.endTime game)
       (foldl (@set_add _) (Game.usedLetters game) (chars guess))
       (Game.wordList game)).

Lemma submitGuess_playing (m : t) (game : Game.t) :
  State.currentGame (state m) = Some game -> Game.gameStatus game = playing ->
  submitGuess now today guess m
  = Some (saveState
            (if Game.gameStatus (guessed game) != playing
             then finalizeGame now today (guessed game)
                    (Make (set_currentGame (Some (guessed game)) (state m))
                          (localStorage m))
             else Make (set_currentGame (Some (guessed game)) (state m))
                       (localStorage m))).
Proof. by rewrite /submitGuess /guessed => -> ->. Qed.

Lemma submitGuess_over (m : t) (game : Game.t) :
  State.currentGame (state m) = Some game -> Game.gameStatus game != playing ->
  submitGuess now today guess m = None.
Proof. by rewrite /submitGuess => -> /= ->. Qed.

Lemma size_guessed (game : Game.t) :
  size (Game.guesses (guessed game)) = (size (Game.guesses game)).+1.
Proof.
by rewrite /guessed /checkGameStatus /=;
   case: ifP => _ /=; [|case: ifP => _ /=]; rewrite size_rcons.
Qed.

Lemma maxGuesses_guessed (game : Game.t) :
  Game.maxGuesses (guessed game) = Game.maxGuesses game.
Proof.
by rewrite /guessed /checkGameStatus /=; case: ifP => _ //=; case: ifP => _.
Qed.

Lemma gameStatus_guessed (game : Game.t) :
  Game.gameStatus game = playing ->
  Game.gameStatus (guessed game)
  = if guess == Game.targetWord game then won
    else if Game.maxGuesses game <= (size (Game.guesses game)).+1 then lost
    else playing.
Proof.
move=> play; rewrite /guessed /checkGameStatus /= size_rcons last_rcons /=.
by case: ifP => _ //=; case: ifP.
Qed.

(** In the game flow a session keeps fewer than 6 guesses while it is
    played, and is finished when its status leaves [playing]. *)
Lemma guessed_flow (game : Game.t) :
  Game.maxGuesses game = 6 -> Game.gameStatus game = playing ->
  size (Game.guesses game) < 6 ->
  if Game.gameStatus (guessed game) != playing then finished (guessed game)
  else size (Game.guesses (guessed game)) < 6.
Proof.
move=> max6 play lt6.
rewrite /finished size_guessed gameStatus_guessed // max6 /= !ltnS.
have le5 : size (Game.guesses game) <= 5 by [].
case: (guess == _) => /=; first by rewrite le5.
by case: (ltnP 4 (size (Game.guesses game))) => //=; rewrite le5.
Qed.

End SubmitGuess.

(** C5, amended: [finalizeGame] has no guard: every call, also for a
    session the history already records, adds 1 to [gamesPlayed] and puts
    one more record at the head of the history.  A second finalization is
    kept out one level up: [submitGuess] throws on a session that is no
    longer [playing], and on a [playing] one it finalizes exactly when the
    new guess ends the session. *)
Theorem finalizeGame_unguarded (now : Z) (today : string) (guess : string)
    (game : Game.t) (m : GameStateManager.t) :
  [/\ Statistics.gamesPlayed
        (GameStateManager.statistics (GameStateManager.finalizeGame now today game m))
      = (Statistics.gamesPlayed (GameStateManager.statistics m)).+1,
      GameStateManager.gameHistory (GameStateManager.finalizeGame now today game m)
      = GameStateManager.historyEntry today game :: GameStateManager.gameHistory m,
      State.currentGame (GameStateManager.state m) = Some game ->
      Game.gameStatus game != playing ->
      GameStateManager.submitGuess now today guess m = None
    & State.currentGame (GameStateManager.state m) = Some game ->
      Game.gameStatus game = playing ->
      exists2 m', GameStateManager.submitGuess now today guess m = Some m'
        & GameStateManager.gameHistory m'
          = if Game.gameStatus (guessed now guess game) != playing
            then GameStateManager.historyEntry today (guessed now guess game)
                   :: GameStateManager.gameHistory m
            else GameStateManager.gameHistory m].
Proof.
split.
- by rewrite statistics_finalizeGame /GameStateManager.updateStatistics; case: ifP.
- by [].
- exact: submitGuess_over.
- move=> cur play; rewrite (submitGuess_playing now today guess cur play).
  by eexists; first by []; case: ifP.
Qed.


(* ================================================================== *)
(** * Persistence *)

Section ValueInduction.
Import Json.

Fixpoint All (T : Type) (P : T -> Prop) (s : seq T) : Prop :=
  if s is x :: s' then P x /\ All P s' else True.

Variable P : value -> Prop.

Hypothesis PNull : P VNull.
Hypothesis PBool : forall b, P (VBool b).
Hypothesis PNum : forall z, P (VNum z).
Hypothesis PStr : forall s, P (VStr s).
Hypothesis PArr : forall vs, All P vs -> P (VArr vs).
Hypothesis PObj : forall kvs, All (fun kv => P kv.2) kvs -> P (VObj kvs).
Hypothesis PSet : forall vs, All P vs -> P (VSet vs).

Fixpoint value_induction (v : value) : P v :=
  match v with
  | VNull => PNull
  | VBool b => PBool b
  | VNum z => PNum z
  | VStr s => PStr s
  | VArr vs =>
      PArr ((fix all (s : seq value) : All P s :=
               if s is x :: s' then conj (value_induction x) (all s') else I) vs)
  | VObj kvs =>
      PObj ((fix all (s : seq (string * value)) : All (fun kv => P kv.2) s :=
               if s is kv :: s' then conj (value_induction kv.2) (all s') else I) kvs)
  | VSet vs =>
      PSet ((fix all (s : seq value) : All P s :=
               if s is x :: s' then conj (value_induction x) (all s') else I) vs)
  end.

End ValueInduction.

Section RoundTrip.
Import Json.

Lemma sameValueZero_sym (a b : value) : sameValueZero a b = sameValueZero b a.
Proof.
by case: a => [|x|x|x|x|x|x]; case: b => [|y|y|y|y|y|y] //=;
   rewrite 1?Z.eqb_sym 1?eq_sym.
Qed.

Lemma distinct_fresh (acc rest : seq value) (x : value) :
  distinct (acc ++ x :: rest) -> has (sameValueZero x) acc = false.
Proof.
elim: acc => [|a acc IH] //= /andP[]; rewrite has_cat /= !negb_or.
by case/and3P=> _ /negbTE fresh _ /IH ->; rewrite sameValueZero_sym fresh.
Qed.

(** [new Set(array)] of distinct elements keeps them all, in order. *)
Lemma Set_add_distinct (acc vs : seq value) :
  distinct (acc ++ vs) -> foldl Set_add acc vs = acc ++ vs.
Proof.
elim: vs acc => [|x vs IH] acc /=; first by rewrite cats0.
move=> dis; rewrite /Set_add (distinct_fresh dis) -cat_rcons.
by apply: IH; rewrite cat_rcons.
Qed.

Lemma sequence_map_Some (T U : Type) (f : T -> option U) (g : T -> U) (s : seq T) :
  All (fun x => f x = Some (g x)) s -> sequence [seq f x | x <- s] = Some [seq g x | x <- s].
Proof. by elim: s => [|x s IH] //= [-> /IH ->]. Qed.

Lemma primitive_fixed (v : value) :
  primitive v -> stringify v = v /\ parse v = Some v.
Proof. by case: v. Qed.

Lemma All_impl (T : Type) (P Q : T -> Prop) (s : seq T) :
  (forall x, P x -> Q x) -> All P s -> All Q s.
Proof. by move=> PQ; elim: s => [|x s IH] //= [/PQ Qx /IH]. Qed.

Lemma All_all (T : Type) (p : pred T) (P : T -> Prop) (s : seq T) :
  all p s -> All (fun x => p x -> P x) s -> All P s.
Proof. by elim: s => [|x s IH] //= /andP[px /IH ps] [/(_ px) Px /ps]. Qed.

(** Reading back what the replacer wrote gives the value that was written. *)
Lemma parse_stringify (v : value) : wf v -> parse (stringify v) = Some v.
Proof.
elim/value_induction: v => //= [vs IH|kvs IH|vs _].
- move=> wf_vs; rewrite -map_comp.
  rewrite (@sequence_map_Some _ _ _ id) ?map_id //.
  exact: All_all wf_vs IH.
- case/andP=> /negbTE untagged wf_kvs; rewrite -map_comp.
  rewrite (@sequence_map_Some _ _ _ id) ?map_id /= ?untagged //.
  have := All_all wf_kvs IH.
  by apply: All_impl => -[k x] /= ->.
- case/andP=> prim dis; rewrite -map_comp.
  rewrite (@sequence_map_Some _ _ _ id) ?map_id /=.
    elim: vs prim {dis} => [|x vs IH] //= /andP[/primitive_fixed[-> ->] /IH].
    by [].
  by rewrite (@Set_add_distinct [::]).
Qed.

End RoundTrip.

Section StoredState.
Import Json Repr.

Lemma distinct_letters (s : seq ascii) :
  uniq s -> distinct [seq VStr (String c EmptyString) | c <- s].
Proof.
elim: s => [|c s IH] //= /andP[c_notin /IH ->]; rewrite andbT.
apply: contra c_notin; elim: s {IH} => [|d s IH] //=.
rewrite inE => /orP[/eqP[->]|/IH ->]; first by rewrite eqxx.
by rewrite orbT.
Qed.

Lemma wf_letters (s : seq ascii) : uniq s -> wf (of_letters s).
Proof.
move=> uniq_s; rewrite /= distinct_letters // andbT.
by rewrite all_map; apply/allP.
Qed.

Lemma wf_map (T : Type) (f : T -> value) (s : seq T) :
  (forall x, wf (f x)) -> all wf [seq f x | x <- s].
Proof. by move=> wf_f; elim: s => //= x s ->; rewrite wf_f. Qed.

Lemma wf_onum (n : option Z) : wf (onum n).
Proof. by case: n. Qed.

Lemma wf_of_GuessEntry (x : GuessEntry.t) : wf (of_GuessEntry x).
Proof. by rewrite /= wf_map. Qed.

Lemma wf_of_Game (g : Game.t) : uniq (Game.usedLetters g) -> wf (of_Game g).
Proof.
move=> uniq_g; have /= wf_used := wf_letters uniq_g.
rewrite /= wf_used wf_onum /= !andbT.
by rewrite !wf_map // => x; apply: wf_of_GuessEntry.
Qed.

Lemma wf_of_HistoryEntry (h : HistoryEntry.t) : wf (of_HistoryEntry h).
Proof. by rewrite /= wf_onum. Qed.

Lemma wf_of_Statistics (s : Statistics.t) : wf (of_Statistics s).
Proof. by rewrite /= wf_map. Qed.

Lemma wf_of_State (s : State.t) :
  GameStateManager.wellFormed s -> wf (of_State s).
Proof.
rewrite /GameStateManager.wellFormed => wf_s.
have wf_game : wf (if State.currentGame s is Some g then of_Game g else VNull).
  by case: (State.currentGame s) wf_s => // g /wf_of_Game.
have /= wf_stats := wf_of_Statistics (State.statistics s).
rewrite /= wf_game wf_onum wf_stats /= !andbT.
by rewrite !wf_map // => x; apply: wf_of_HistoryEntry.
Qed.

Lemma restore_of_State (s : State.t) :
  Persistence.restore_usedLetters (of_State s) = of_State s.
Proof. by rewrite /of_State; case: (State.currentGame s). Qed.

End StoredState.

(** On the object graph: a state of the right shape, whose Sets the tag
    alone marks, is read back as it was written. *)
Lemma roundtrip_on_values (st current : Json.value) :
  Json.wf st -> Persistence.isValidState st ->
  Persistence.restore_usedLetters st = st ->
  Persistence.loadState current (Persistence.saveState st) = st.
Proof.
move=> wf_st valid restored.
by rewrite /Persistence.loadState /Persistence.saveState parse_stringify // valid.
Qed.

(** C9: what [saveState] writes, [loadState] reads back as the state that
    was saved, whatever state the loading manager starts from; in
    particular the [usedLetters] Set of the current game and the array of
    unlocked achievements (with their ids) are the saved ones. *)
Theorem loadState_saveState (m : GameStateManager.t) (current : Json.value) :
  GameStateManager.wellFormed (GameStateManager.state m) ->
  [/\ Persistence.loadState current
        (GameStateManager.localStorage (GameStateManager.saveState m))
      = Repr.of_State (GameStateManager.state m),
      forall game,
        State.currentGame (GameStateManager.state m) = Some game ->
        Persistence.field [:: "currentGame"; "usedLetters"]%string
          (Persistence.loadState current
             (GameStateManager.localStorage (GameStateManager.saveState m)))
        = Some (Repr.of_letters (Game.usedLetters game))
    & Persistence.field [:: "achievements"]%string
        (Persistence.loadState current
           (GameStateManager.localStorage (GameStateManager.saveState m)))
      = Some (Json.VArr [seq Repr.of_Achievement a
                           | a <- State.achievements (GameStateManager.state m)])].
Proof.
move=> wf_m.
have load : Persistence.loadState current
              (GameStateManager.localStorage (GameStateManager.saveState m))
            = Repr.of_State (GameStateManager.state m).
  apply: roundtrip_on_values => //; first exact: wf_of_State.
  exact: restore_of_State.
by rewrite load; split=> // game /= ->.
Qed.

Section WellFormed.
Import GameStateManager.

Lemma uniq_set_add (T : eqType) (s : seq T) (x : T) : uniq s -> uniq (set_add s x).
Proof.
by rewrite /set_add; case: ifP => // x_notin uniq_s; rewrite rcons_uniq x_notin.
Qed.

Lemma uniq_foldl_set_add (T : eqType) (s xs : seq T) :
  uniq s -> uniq (foldl (@set_add T) s xs).
Proof. by elim: xs s => [|x xs IH] s //= uniq_s; apply/IH/uniq_set_add. Qed.

Lemma wellFormed_create : wellFormed (state create).
Proof. by []. Qed.

Lemma wellFormed_initializeNewGame now gid rnd wl (m : t) :
  wellFormed (state (initializeNewGame now gid rnd wl m)).
Proof. by []. Qed.

Lemma wellFormed_finalizeGame now today game (m : t) :
  wellFormed (state m) -> wellFormed (state (finalizeGame now today game m)).
Proof. by []. Qed.

Lemma usedLetters_checkGameStatus now (game : Game.t) :
  Game.usedLetters (checkGameStatus now game) = Game.usedLetters game.
Proof. by rewrite /checkGameStatus; do 2 (case: ifP => _ //=). Qed.

Lemma wellFormed_submitGuess now today guess (m m' : t) :
  wellFormed (state m) -> submitGuess now today guess m = Some m' ->
  wellFormed (state m').
Proof.
rewrite /submitGuess /wellFormed.
case: (State.currentGame (state m)) => // game uniq_g.
case: ifP => // _ [<-] /=.
by case: ifP => _ /=; rewrite usedLetters_checkGameStatus /= uniq_foldl_set_add.
Qed.

End WellFormed.

Lemma loadState_saveState_witness :
  Persistence.field [:: "currentGame"; "usedLetters"]%string
    (Persistence.loadState (Repr.of_State GameStateManager.initialState)
       (GameStateManager.localStorage
          (GameStateManager.saveState
             (GameStateManager.Make
                (GameStateManager.set_currentGame (Some Sample.wonGame)
                   GameStateManager.initialState) None))))
  = Some (Json.VSet [:: Json.VStr "H"; Json.VStr "E"; Json.VStr "L"; Json.VStr "O"]).
Proof.
have [_ used _] :=
  @loadState_saveState
    (GameStateManager.Make
       (GameStateManager.set_currentGame (Some Sample.wonGame)
          GameStateManager.initialState) None)
    (Repr.of_State GameStateManager.initialState) erefl.
exact: (used Sample.wonGame erefl).
Defined.


(* ================================================================== *)
(** * The derived statistics *)

Section Derived.
Import GameStateManager.

Lemma calculateAverageGuesses_wonCounts (s : State.t) :
  calculateAverageGuesses s
  = if wonCounts s is [::] then AvgNumber 0%float
    else AvgString (Number.toFixed1 (meanGuesses s)).
Proof.
rewrite /calculateAverageGuesses /meanGuesses /wonCounts /Number.sum.
set won_games := [seq game <- _ | _].
rewrite size_map; case: (won_games) => [|g gs] //=.
congr (AvgString (Number.toFixed1 (PrimFloat.div _ _))).
by elim: gs (PrimFloat.add _ _) => [|x gs IH] z //=.
Qed.

(** Lost games do not enter the average. *)
Lemma wonCounts_lost (s : State.t) :
  wonCounts s
  = [seq HistoryEntry.guessCount game
       | game <- [seq game <- State.gameHistory s
                    | HistoryEntry.gameStatus game != lost]
         & HistoryEntry.gameStatus game == won].
Proof.
rewrite /wonCounts -filter_predI; congr map; apply: eq_filter => game /=.
by case: (HistoryEntry.gameStatus game).
Qed.

End Derived.

(** C8, as stated: with three won games of 3, 3 and 4 guesses in the
    history, [averageGuesses] is not the mean 10/3: it is the string 3.3,
    and the number 3.3 is not 10/3 either. *)
Lemma averageGuesses_not_the_mean :
  [/\ GameStateManager.view_averageGuesses
        (GameStateManager.getStatistics
           (GameStateManager.withHistory 3 3
              [:: GameStateManager.entry won 3; GameStateManager.entry won 3;
                  GameStateManager.entry won 4]))
      <> GameStateManager.AvgNumber
           (GameStateManager.meanGuesses
              (GameStateManager.state
                 (GameStateManager.withHistory 3 3
                    [:: GameStateManager.entry won 3; GameStateManager.entry won 3;
                        GameStateManager.entry won 4]))),
      GameStateManager.view_averageGuesses
        (GameStateManager.getStatistics
           (GameStateManager.withHistory 3 3
              [:: GameStateManager.entry won 3; GameStateManager.entry won 3;
                  GameStateManager.entry won 4]))
      = GameStateManager.AvgString "3.3",
      GameStateManager.meanGuesses
        (GameStateManager.state
           (GameStateManager.withHistory 3 3
              [:: GameStateManager.entry won 3; GameStateManager.entry won 3;
                  GameStateManager.entry won 4]))
      = PrimFloat.div 10 3
    & PrimFloat.eqb (PrimFloat.div 10 3) 3.3 = false].
Proof. by split; vm_compute. Qed.

(** C8, amended: [winPercentage] is 0 when no game was played and
    otherwise [Math.round((gamesWon / gamesPlayed) * 100)]; [averageGuesses]
    is the number 0 when the history holds no won game, and otherwise the
    string that [toFixed(1)] makes of the mean guess count of the won games
    of the history: the mean rounded to one decimal. *)
Theorem getStatistics_derived (m : GameStateManager.t) :
  [/\ Statistics.gamesPlayed (GameStateManager.statistics m) = 0 ->
      GameStateManager.view_winPercentage (GameStateManager.getStatistics m) = 0%float,
      0 < Statistics.gamesPlayed (GameStateManager.statistics m) ->
      GameStateManager.view_winPercentage (GameStateManager.getStatistics m)
      = Number.round
          (PrimFloat.mul
             (PrimFloat.div
                (Number.of_nat (Statistics.gamesWon (GameStateManager.statistics m)))
                (Number.of_nat (Statistics.gamesPlayed (GameStateManager.statistics m))))
             100),
      GameStateManager.wonCounts (GameStateManager.state m) = [::] ->
      GameStateManager.view_averageGuesses (GameStateManager.getStatistics m)
      = GameStateManager.AvgNumber 0
    & GameStateManager.wonCounts (GameStateManager.state m) <> [::] ->
      GameStateManager.view_averageGuesses (GameStateManager.getStatistics m)
      = GameStateManager.AvgString
          (Number.toFixed1
             (GameStateManager.meanGuesses (GameStateManager.state m)))].
Proof.
rewrite /GameStateManager.getStatistics /= /GameStateManager.winPercentage.
rewrite calculateAverageGuesses_wonCounts /GameStateManager.statistics.
split.
- by move=> ->.
- by move=> ->.
- by move=> ->.
- by case: (GameStateManager.wonCounts _).
Qed.

Example getStatistics_seven_of_ten :
  GameStateManager.getStatistics
    (GameStateManager.withHistory 10 7
       [:: GameStateManager.entry won 3; GameStateManager.entry lost 6;
           GameStateManager.entry won 4])
  = GameStateManager.View (Statistics.Make 10 7 0 0 [:: 0; 0; 0; 0; 0; 0])
      70 (GameStateManager.AvgString "3.5").
Proof. by vm_compute. Qed.

Example getStatistics_new_manager :
  GameStateManager.getStatistics GameStateManager.create
  = GameStateManager.View GameStateManager.initialStatistics
      0 (GameStateManager.AvgNumber 0).
Proof. by vm_compute. Qed.

(** Rounding acts on the double: 23 wins in 40 games make 57.49999999999999,
    hence 57, where the exact quotient 57.5 would round to 58. *)
Example winPercentage_23_of_40 :
  GameStateManager.winPercentage (Statistics.Make 40 23 0 0 [::]) = 57%float
  /\ PrimFloat.mul (PrimFloat.div 23 40) 100 = 57.49999999999999%float.
Proof. by split; vm_compute. Qed.

(** Below 40 games the double arithmetic agrees with exact rounding to the
    nearest integer, a tie going up. *)
Lemma winPercentage_exact (played wonN : nat) :
  0 < played < 40 -> wonN <= played ->
  PrimFloat.eqb
    (GameStateManager.winPercentage (Statistics.Make played wonN 0 0 [::]))
    (Number.of_nat (GameStateManager.exactPercentage played wonN)).
Proof.
move=> /andP[gt0 lt40] le_won.
have checked : GameStateManager.winPercentage_exact_upto 39 by vm_compute.
have played_in : played \in iota 1 39 by rewrite mem_iota gt0.
have won_in : wonN \in iota 0 played.+1 by rewrite mem_iota.
exact: (allP (allP checked _ played_in) _ won_in).
Qed.


(* ================================================================== *)
(** * The session as the state manager runs it *)

Section ManagerSession.
Import GameStateManager.

Variable target : string.

Let secret (x : GuessEntry.t) : bool := GuessEntry.word x == target.

Record game_inv (game : Game.t) : Prop := GameInv {
  ginv_target : Game.targetWord game = target;
  ginv_max : Game.maxGuesses game = 6;
  ginv_bound : size (Game.guesses game) <= 6;
  ginv_status :
    Game.gameStatus game
    = if has secret (Game.guesses game) then won
      else if 6 <= size (Game.guesses game) then lost else playing
}.

Definition current_inv (m : t) : Prop :=
  exists2 game, State.currentGame (state m) = Some game & game_inv game.

Lemma game_inv_guessed now guess (game : Game.t) :
  game_inv game -> Game.gameStatus game = playing ->
  game_inv (guessed now guess game).
Proof.
case=> Ht Hmax Hb Hs play.
move: Hs; rewrite play.
case hit: (has secret _) => //.
case: (leqP 6 (size (Game.guesses game))) => // lt6 _.
split.
- by rewrite /guessed /checkGameStatus /=; case: ifP => _ //=; case: ifP.
- by rewrite maxGuesses_guessed.
- by rewrite size_guessed.
- rewrite gameStatus_guessed // Hmax size_guessed.
  have -> : Game.guesses (guessed now guess game)
            = rcons (Game.guesses game)
                (GuessEntry.Make guess (evaluateGuess guess (Game.targetWord game)) now).
    by rewrite /guessed /checkGameStatus /=; case: ifP => _ //=; case: ifP.
  by rewrite has_rcons hit orbF /secret /= Ht.
Qed.

Lemma current_inv_submit (m : t) (c : submission) :
  current_inv m -> current_inv (submitOrKeep m c).
Proof.
case=> game cur inv; rewrite /submitOrKeep.
case play: (Game.gameStatus game == playing); last first.
  by rewrite (submitGuess_over _ _ _ cur) ?play //; exists game.
rewrite (submitGuess_playing _ _ _ cur (eqP play)).
exists (guessed (sub_now c) (sub_guess c) game).
  by case: ifP.
exact: game_inv_guessed (eqP play).
Qed.

Lemma current_inv_submitAll (m : t) (cs : seq submission) :
  current_inv m -> current_inv (submitAll m cs).
Proof.
by elim: cs m => [|c cs IH] m //= inv; apply/IH/current_inv_submit.
Qed.

End ManagerSession.

(** C3 for the session of [GameStateManager]: after any guesses submitted
    to a new game, the status is [lost] exactly when 6 guesses are recorded
    and none is the secret word, [won] exactly when a recorded guess is the
    secret word, and [submitGuess] throws once the status is [won] or
    [lost]. *)
Lemma manager_session_outcome (now : Z) (gid : string) (rnd : nat)
    (wl : seq string) (m : GameStateManager.t)
    (cs : seq GameStateManager.submission) :
  exists2 game,
    State.currentGame
      (GameStateManager.state
         (GameStateManager.submitAll
            (GameStateManager.initializeNewGame now gid rnd wl m) cs))
    = Some game
  & [/\ Game.targetWord game = GameStateManager.selectTargetWord rnd wl,
        Game.gameStatus game = lost
        <-> size (Game.guesses game) = 6
            /\ all (fun x => GuessEntry.word x != Game.targetWord game)
                   (Game.guesses game),
        Game.gameStatus game = won
        <-> has (fun x => GuessEntry.word x == Game.targetWord game)
                (Game.guesses game)
      & Game.gameStatus game != playing ->
        forall c,
          GameStateManager.submitGuess
            (GameStateManager.sub_now c) (GameStateManager.sub_today c)
            (GameStateManager.sub_guess c)
            (GameStateManager.submitAll
               (GameStateManager.initializeNewGame now gid rnd wl m) cs)
          = None].
Proof.
have [] := @current_inv_submitAll (GameStateManager.selectTargetWord rnd wl)
             (GameStateManager.initializeNewGame now gid rnd wl m) cs.
  by eexists; first by []; split.
move=> game cur [Ht Hmax Hb Hs]; exists game => //.
rewrite Ht; split=> //.
- rewrite Hs.
  have -> : all (fun x => GuessEntry.word x
                          != GameStateManager.selectTargetWord rnd wl)
                (Game.guesses game)
            = ~~ has (fun x => GuessEntry.word x
                               == GameStateManager.selectTargetWord rnd wl)
                     (Game.guesses game) by rewrite -all_predC.
  case: (has _ _) => /=; first by split=> // -[].
  case: (leqP 6 (size (Game.guesses game))) => [ge6|lt6]; split=> //.
  + by move=> _; split=> //; apply/eqP; rewrite eqn_leq Hb.
  + by case=> sz _; move: lt6; rewrite sz.
- rewrite Hs; case: (has _ _) => //.
  by case: (leqP 6 (size (Game.guesses game))).
- by move=> over c; apply: submitGuess_over cur over.
Qed.

(** Outside the sessions the game flow produces: a session marked won with
    7 guesses is counted as won, and no slot of [guessDistribution] takes
    it. *)
Example finalizeGame_seven_guesses :
  GameStateManager.statistics
    (GameStateManager.finalizeGame 1000 "2024-01-01"
       (Game.Make "odd" "HELLO" ""
          (nseq 7 (GuessEntry.Make "HELLO" Sample.allCorrect 1000%Z))
          won 6 5 0%Z (Some 1000%Z) [::] [::])
       GameStateManager.create)
  = Statistics.Make 1 1 1 1 [:: 0; 0; 0; 0; 0; 0].
Proof. by []. Qed.


(** Every session the game flow ends is a finished one: the sessions that
    reach [finalizeGame] through [submitGuess] have 1 to 6 guesses. *)
Lemma manager_session_finished (now : Z) (gid : string) (rnd : nat)
    (wl : seq string) (m : GameStateManager.t)
    (cs : seq GameStateManager.submission) (game : Game.t) :
  State.currentGame
    (GameStateManager.state
       (GameStateManager.submitAll
          (GameStateManager.initializeNewGame now gid rnd wl m) cs))
  = Some game ->
  Game.gameStatus game != playing -> GameStateManager.finished game.
Proof.
have [] := @current_inv_submitAll (GameStateManager.selectTargetWord rnd wl)
             (GameStateManager.initializeNewGame now gid rnd wl m) cs.
  by eexists; first by []; split.
move=> game' -> [_ _ Hb Hs] [<-] over.
rewrite /GameStateManager.finished over Hb andbT /=.
move: over; rewrite Hs.
case hit: (has _ _); first by case: (Game.guesses game') hit.
by case: (leqP 6 (size (Game.guesses game'))) => // /(leq_trans _) ->.
Qed.


(* ================================================================== *)
(** * Further properties of the guess evaluation *)

Section EvaluateSize.
Import Evaluator.

Variable n : nat.

Lemma size_pass1_step (w : work) (i : nat) :
  i < n -> size (result w) = n -> size (result (pass1_step w i)) = n.
Proof.
move=> lt_i sz; rewrite /pass1_step; case: ifP => _ //=.
by rewrite size_set_nth sz; apply/maxn_idPr.
Qed.

Lemma size_pass2_step (w : work) (i : nat) :
  i < n -> size (result w) = n -> size (result (pass2_step w i)) = n.
Proof.
move=> lt_i sz; rewrite /pass2_step; case: ifP => _ //=.
case: (indexOf _ _) => [targetIndex|] //=.
by rewrite size_set_nth sz; apply/maxn_idPr.
Qed.

Lemma size_foldl_step (step : work -> nat -> work) (w : work) (k : nat) :
  (forall w i, i < n -> size (result w) = n -> size (result (step w i)) = n) ->
  k <= n -> size (result w) = n -> size (result (foldl step w (iota 0 k))) = n.
Proof.
move=> step_size; elim: k => [|k IH] // lt_k sz.
rewrite -{1}addn1 iotaD foldl_cat add0n /=.
by apply: step_size => //; apply: IH => //; apply: ltnW.
Qed.

(** Whatever the two strings, the result has one entry per position of
    the word length. *)
Lemma size_evaluate (target guess : string) : size (evaluate n target guess) = n.
Proof.
rewrite /evaluate /pass2 /pass1.
apply: size_foldl_step => //; first exact: size_pass2_step.
apply: size_foldl_step => //; first exact: size_pass1_step.
by rewrite /= size_nseq.
Qed.

End EvaluateSize.

Section EvaluateExact.
Import Evaluator.

Variables (n : nat) (tw gw : seq ascii).
Hypothesis size_tw : size tw = n.
Hypothesis size_gw : size gw = n.

Let d : ascii := Ascii.zero.
Let hit (i : nat) : bool := nth d gw i == nth d tw i.
Let R1 := mkseq (fun i => if hit i then correct else absent) n.
Let T1 := mkseq (fun i => if hit i then Null else Chr (nth d tw i)) n.
Let G1 := mkseq (fun i => if hit i then Null else Chr (nth d gw i)) n.

(** What the second loop keeps besides the counts: a [present] mark sits on
    a position that is no exact match, and a position left [absent] has no
    instance of its letter left in the secret. *)
Record pass2_ext (k : nat) (w : work) : Prop := Pass2Ext {
  ext_base : pass2_inv n tw gw k w;
  ext_present : forall i, i < n -> nth absent (result w) i = present -> ~~ hit i;
  ext_used : forall i, nth absent (result w) i != unused;
  ext_absent : forall i, i < k -> ~~ hit i -> nth absent (result w) i = absent ->
    count (pred1 (Chr (nth d gw i))) (targetLetters w) = 0
}.

Lemma pass2_ext_start : pass2_ext 0 (Work R1 T1 G1).
Proof.
split=> //=; first exact: pass2_inv_start.
- by move=> i lt_i; rewrite nth_mkseq //; case: (hit i).
- move=> i; case: (ltnP i n) => [lt_i|ge_i]; last by rewrite nth_default ?size_mkseq.
  by rewrite nth_mkseq //; case: (hit i).
Qed.

Lemma indexOf_None (x : cell) (s : seq cell) :
  x != Undef -> indexOf x s = None -> count (pred1 x) s = 0.
Proof.
rewrite /indexOf => /negbTE ->; case: ifP => // not_in _.
by apply/eqP; rewrite -leqn0 leqNgt -has_count has_pred1 -index_mem not_in.
Qed.

Lemma pass2_ext_step (k : nat) (w : work) :
  k < n -> pass2_ext k w -> pass2_ext k.+1 (pass2_step w k).
Proof.
move=> lt_k [base Hpres Hused Habs].
have base' := pass2_inv_step lt_k base.
have [Hg Hsr Hst Htodo Hcorr Hcnt] := base.
have Rk : nth absent (result w) k = if hit k then correct else absent.
  by rewrite Htodo // nth_mkseq.
move: base' {base}; rewrite /pass2_step Hg nth_mkseq // -/d -/(hit k).
case hk: (hit k) => /=.
  move=> base'; split=> // i; rewrite ltnS leq_eqVlt.
  by case/orP=> [/eqP->|]; [rewrite hk | apply: Habs].
case found: (indexOf _ _) => [idx|] /= base'; split=> //=.
- move=> i lt_i; rewrite nth_set_nth /=.
  by case: (i =P k) => [->|_]; rewrite ?hk //; apply: Hpres.
- by move=> i; rewrite nth_set_nth /=; case: (i =P k).
- move=> i; rewrite ltnS leq_eqVlt.
  case/orP=> [/eqP->|lt_i]; first by rewrite nth_set_nth /= eqxx.
  rewrite nth_set_nth /= ltn_eqF // => nhit Ri.
  have idx_lt : idx < size (targetLetters w).
    by move: found; rewrite /indexOf /=; case: ifP => // ? [<-].
  have := count_set_nth Undef Null (pred1 (Chr (nth d gw i))) idx_lt.
  rewrite /= addn0 => eq_cnt.
  have := Habs i lt_i nhit Ri; rewrite -eq_cnt.
  by case: (count _ _).
- move=> i; rewrite ltnS leq_eqVlt.
  case/orP=> [/eqP->|lt_i]; last exact: Habs.
  by move=> _ _; apply: indexOf_None found.
Qed.

Lemma pass2_ext_iter (k : nat) :
  k <= n -> pass2_ext k (foldl pass2_step (Work R1 T1 G1) (iota 0 k)).
Proof.
elim: k => [|k IH] lt_k; first exact: pass2_ext_start.
rewrite -{2}addn1 iotaD foldl_cat add0n /=.
by apply: pass2_ext_step => //; apply: IH; apply: ltnW.
Qed.

Let final : work :=
  pass2 n (pass1 n (Work (nseq n absent) [seq Chr c | c <- tw] [seq Chr c | c <- gw])).

Lemma final_ext : pass2_ext n final.
Proof.
rewrite /final /pass1 (pass1_closed size_tw size_gw); exact: pass2_ext_iter.
Qed.

(** An entry is [correct] exactly where the two words agree. *)
Lemma final_correct_at (i : nat) :
  i < n -> (nth absent (result final) i == correct) = hit i.
Proof.
move=> lt_i; have [[_ _ _ _ Hcorr _] _ _ _] := final_ext.
rewrite Hcorr nth_mkseq // -/d -/(hit i).
by case: (hit i).
Qed.

Let marked (L : ascii) : nat :=
  count (fun i => (nth d gw i == L)
                  && (nth absent (result final) i \in [:: correct; present]))
        (iota 0 n).

(** Per letter, the marks are as many as the lesser of its occurrences in
    the guess and in the secret. *)
Lemma final_marked_min (L : ascii) :
  marked L = minn (count_mem L gw) (count_mem L tw).
Proof.
have [base Hpres Hused Habs] := final_ext.
have [_ Hsr Hst _ Hcorr Hcnt] := base.
pose a := count (fun i => hit i && (nth d gw i == L)) (iota 0 n).
pose p := count (fun i => (nth absent (result final) i == present)
                          && (nth d gw i == L)) (iota 0 n).
pose u := count (fun i => [&& ~~ hit i, nth d gw i == L
                             & nth absent (result final) i == absent]) (iota 0 n).
have state_at i : i < n ->
    (nth absent (result final) i == correct) = hit i.
  exact: final_correct_at.
have marked_ap : marked L = a + p.
  rewrite /marked /a /p -count_predUI.
  rewrite [X in _ + X](@eq_in_count _ _ pred0) ?count_pred0 ?addn0.
  - move=> i; rewrite mem_iota add0n /= => lt_i.
    rewrite -(state_at i lt_i).
    by case: (nth absent (result final) i) => //=; rewrite ?andbF.
  - apply: eq_in_count => i; rewrite mem_iota add0n /= => lt_i.
    rewrite -(state_at i lt_i) !inE.
    by case: (nth absent (result final) i); case: (nth d gw i == L).
have guess_apu : count_mem L gw = a + p + u.
  rewrite -marked_ap (count_nth d) size_gw /marked /u -count_predUI.
  rewrite [X in _ + X](@eq_in_count _ _ pred0) ?count_pred0 ?addn0.
  - move=> i; rewrite mem_iota add0n /= => lt_i.
    rewrite -(state_at i lt_i) !inE.
    by case: (nth absent (result final) i) => //=; rewrite ?andbF.
  - apply: eq_in_count => i; rewrite mem_iota add0n /= => lt_i.
    rewrite -(state_at i lt_i) !inE.
    have := Hused i.
    by case: (nth absent (result final) i) => //=; case: (nth d gw i == L).
have secret_ap : count_mem L tw
    = a + p + count (pred1 (Chr L)) (targetLetters final).
  rewrite -addnA (Hcnt L) (count_nth d) size_tw /mkseq count_map /a -count_predUI.
  rewrite [X in _ + X](@eq_in_count _ _ pred0) ?count_pred0 ?addn0.
  - by move=> i _ /=; rewrite /hit /d; case: (_ == nth _ tw i); rewrite ?andbF.
  - apply: eq_count => i /=; rewrite /hit /d.
    by case: (nth _ gw i =P nth _ tw i) => [->|_] /=; rewrite ?orbF.
rewrite marked_ap guess_apu secret_ap.
case u0: u => [|u']; first by rewrite addn0 (minn_idPl _) // leq_addr.
have: has (fun i => [&& ~~ hit i, nth d gw i == L
                       & nth absent (result final) i == absent]) (iota 0 n).
  by rewrite has_count -/u u0.
case/hasP=> i; rewrite mem_iota add0n /= => lt_i /and3P[nhit /eqP gi /eqP Ri].
by rewrite -gi (Habs i lt_i nhit Ri) addn0 (minn_idPr _) // leq_addr.
Qed.

(** A position that is not [absent] holds a letter of the secret. *)
Lemma final_marked_in (i : nat) :
  i < n -> nth absent (result final) i != absent -> nth d gw i \in tw.
Proof.
move=> lt_i not_absent.
have: 0 < marked (nth d gw i).
  rewrite /marked -has_count; apply/hasP; exists i; first by rewrite mem_iota.
  have [_ _ /(_ i)] := final_ext.
  by rewrite eqxx !inE; case: (nth absent _ i) not_absent.
rewrite final_marked_min leq_min => /andP[_].
by rewrite -has_count has_pred1.
Qed.

Lemma final_used (i : nat) : nth absent (result final) i != unused.
Proof. by have [_ _ /(_ i)] := final_ext. Qed.

End EvaluateExact.

Lemma chars_inj : injective chars.
Proof.
move=> a b eq_ab.
by rewrite -(string_of_list_ascii_of_string a) -(string_of_list_ascii_of_string b)
           -/(chars a) -/(chars b) eq_ab.
Qed.

(** X1: Whatever the secret and the guess, of any lengths, both
    [evaluateGuess] methods return 5 entries. *)
Theorem evaluateGuess_size (g : WordleGame.t) (guess : string) :
  size (WordleGame.evaluateGuess g guess) = 5
  /\ size (GameStateManager.evaluateGuess guess (WordleGame.targetWord g)) = 5.
Proof. by split; apply: size_evaluate. Qed.

(** X2: For 5-letter words, an entry is [correct] exactly at the positions
    where the guess and the secret hold the same letter. *)
Theorem evaluateGuess_correct_at (g : WordleGame.t) (guess : string) (i : nat) :
  WordleGame.isValidWord (WordleGame.targetWord g) ->
  WordleGame.isValidWord guess -> i < 5 ->
  (nth unused (WordleGame.evaluateGuess g guess) i == correct)
  = (nth Ascii.zero (chars guess) i
     == nth Ascii.zero (chars (WordleGame.targetWord g)) i).
Proof.
move=> /isValidWord_size sz_t /isValidWord_size sz_g lt_i.
rewrite -(final_correct_at sz_t sz_g lt_i).
rewrite /WordleGame.evaluateGuess /Evaluator.evaluate /Evaluator.init /split.
by rewrite (set_nth_default absent) // (final_size sz_t sz_g).
Qed.

Lemma evaluateGuess_correct_at_witness :
  (nth unused (WordleGame.evaluateGuess (WordleGame.fresh [::] "HELLO") "WORLD") 3
     == correct)
  = (nth Ascii.zero (chars "WORLD") 3 == nth Ascii.zero (chars "HELLO") 3).
Proof.
exact: (@evaluateGuess_correct_at (WordleGame.fresh [::] "HELLO") "WORLD" 3
          erefl erefl erefl).
Defined.

(** X3: For 5-letter words, the result is five times [correct] exactly when
    the guess is the secret word. *)
Theorem evaluateGuess_all_correct (g : WordleGame.t) (guess : string) :
  WordleGame.isValidWord (WordleGame.targetWord g) ->
  WordleGame.isValidWord guess ->
  (WordleGame.evaluateGuess g guess == nseq 5 correct)
  = (guess == WordleGame.targetWord g).
Proof.
move=> valid_t valid_g.
have sz_t := isValidWord_size valid_t; have sz_g := isValidWord_size valid_g.
have [sz_r _] := evaluateGuess_size g guess.
apply/eqP/eqP => [all_correct|eq_g]; last first.
  apply: (@eq_from_nth _ unused); rewrite ?size_nseq //.
  move=> i; rewrite sz_r => lt_i; rewrite nth_nseq lt_i.
  by apply/eqP; rewrite evaluateGuess_correct_at // eq_g.
apply: chars_inj; apply: (@eq_from_nth _ Ascii.zero); rewrite sz_g // => i lt_i.
apply/eqP; rewrite -(evaluateGuess_correct_at valid_t valid_g lt_i).
by rewrite all_correct nth_nseq lt_i.
Qed.

Lemma evaluateGuess_all_correct_witness :
  (WordleGame.evaluateGuess (WordleGame.fresh [::] "HELLO") "HELLO" == nseq 5 correct)
  = ("HELLO"%string == "HELLO"%string).
Proof.
exact: (@evaluateGuess_all_correct (WordleGame.fresh [::] "HELLO") "HELLO" erefl erefl).
Defined.

(** X4: For 5-letter words and every letter, the positions of the guess that
    hold the letter and are marked [correct] or [present] are exactly as
    many as the lesser of the letter's occurrences in the guess and in the
    secret. *)
Theorem evaluateGuess_credit_min (g : WordleGame.t) (guess : string) (L : ascii) :
  WordleGame.isValidWord (WordleGame.targetWord g) ->
  WordleGame.isValidWord guess ->
  credited guess (WordleGame.evaluateGuess g guess) L
  = minn (occurrences L guess) (occurrences L (WordleGame.targetWord g)).
Proof.
move=> /isValidWord_size sz_t /isValidWord_size sz_g.
rewrite /WordleGame.evaluateGuess /Evaluator.evaluate /Evaluator.init /split.
rewrite /credited (count_zip_nth Ascii.zero absent) ?sz_g ?(final_size sz_t sz_g) //.
exact: (final_marked_min sz_t sz_g).
Qed.

Lemma evaluateGuess_credit_min_witness :
  credited "LLALL" (WordleGame.evaluateGuess (WordleGame.fresh [::] "HELLO") "LLALL") "L"
  = minn (occurrences "L" "LLALL") (occurrences "L" "HELLO").
Proof.
exact: (@evaluateGuess_credit_min (WordleGame.fresh [::] "HELLO") "LLALL" "L"%char
          erefl erefl).
Defined.

(** X5: For 5-letter words, a position that is not [absent] holds a letter
    that occurs in the secret; so a letter foreign to the secret is
    [absent] wherever it is guessed. *)
Theorem evaluateGuess_marked_occurs (g : WordleGame.t) (guess : string) (i : nat) :
  WordleGame.isValidWord (WordleGame.targetWord g) ->
  WordleGame.isValidWord guess -> i < 5 ->
  nth unused (WordleGame.evaluateGuess g guess) i != absent ->
  nth Ascii.zero (chars guess) i \in chars (WordleGame.targetWord g).
Proof.
move=> /isValidWord_size sz_t /isValidWord_size sz_g lt_i.
rewrite /WordleGame.evaluateGuess /Evaluator.evaluate /Evaluator.init /split.
rewrite (set_nth_default absent) ?(final_size sz_t sz_g) //.
exact: (final_marked_in sz_t sz_g).
Qed.

Lemma evaluateGuess_marked_occurs_witness :
  nth Ascii.zero (chars "WORLD") 1 \in chars "HELLO".
Proof.
exact: (@evaluateGuess_marked_occurs (WordleGame.fresh [::] "HELLO") "WORLD" 1
          erefl erefl erefl erefl).
Defined.


(* ================================================================== *)
(** * The session: records, letters and moves *)

(** ** Strings *)

Section Strings.

Lemma chars_append (a b : string) : chars (append a b) = chars a ++ chars b.
Proof. by elim: a => [|c a IH] //=; rewrite -/(chars _) IH. Qed.

Lemma chars_of_list (l : seq ascii) : chars (string_of_list_ascii l) = l.
Proof. exact: list_ascii_of_string_of_list_ascii. Qed.

Lemma chars_toUpperCase (s : string) :
  chars (toUpperCase s) = [seq upper_char c | c <- chars s].
Proof. by rewrite /toUpperCase chars_of_list. Qed.

Lemma strlen_toUpperCase (s : string) : strlen (toUpperCase s) = strlen s.
Proof. by rewrite /strlen chars_toUpperCase size_map. Qed.

Lemma strlen_append (a b : string) : strlen (append a b) = strlen a + strlen b.
Proof. by rewrite /strlen chars_append size_cat. Qed.

Lemma slice_init_append1 (s : string) (c : ascii) :
  slice_init (append s (String c EmptyString)) = s.
Proof.
rewrite /slice_init chars_append size_cat /= addn1 /= take_size_cat //.
exact: string_of_list_ascii_of_string.
Qed.

(** [word.indexOf(c)] for a one-character string [c]. *)
Lemma index_char (c : ascii) (w : string) :
  String.index 0 (String c EmptyString) w
  = if c \in chars w then Some (index c (chars w)) else None.
Proof.
elim: w => [|b w IH] //=; rewrite -/(chars w) inE IH.
case: (ascii_dec c b) => [->|ne_cb]; first by rewrite !eqxx; case: w {IH}.
have /negbTE ne : c != b by apply/eqP.
by rewrite ne eq_sym ne /=; case: ifP.
Qed.

End Strings.

(** ** What a session records *)

Section SetAdd.

Variable T : eqType.

Lemma mem_set_add (s : seq T) (x y : T) :
  (y \in set_add s x) = (y == x) || (y \in s).
Proof.
rewrite /set_add; case: ifP => [x_in|_]; last by rewrite mem_rcons inE.
by case: (y =P x) => [->|].
Qed.

Lemma mem_foldl_set_add (s xs : seq T) (y : T) :
  (y \in foldl (@set_add T) s xs) = (y \in s) || (y \in xs).
Proof.
elim: xs s => [|x xs IH] s /=; first by rewrite orbF.
by rewrite IH mem_set_add inE orbCA orbA.
Qed.

End SetAdd.

Section EvaluateUsed.
Import Evaluator.

Lemma all_set_nth (T : Type) (p : pred T) (d y : T) (s : seq T) (i : nat) :
  p d -> p y -> all p s -> all p (set_nth d s i y).
Proof.
move=> pd py; elim: s i => [|x s IH] [|i] /=.
- by rewrite py.
- by move=> _; rewrite pd /=; elim: i => [|i IHi] /=; rewrite ?py ?pd.
- by case/andP=> _ ->; rewrite py.
- by case/andP=> -> /IH ->.
Qed.

Let used (w : work) : bool := all (fun s => s != unused) (result w).

Lemma used_pass1_step (w : work) (i : nat) : used w -> used (pass1_step w i).
Proof. by rewrite /pass1_step; case: ifP => // _; apply: all_set_nth. Qed.

Lemma used_pass2_step (w : work) (i : nat) : used w -> used (pass2_step w i).
Proof.
rewrite /pass2_step; case: ifP => // _; case: (indexOf _ _) => // idx.
exact: all_set_nth.
Qed.

Lemma used_foldl (step : work -> nat -> work) (w : work) (s : seq nat) :
  (forall w i, used w -> used (step w i)) -> used w -> used (foldl step w s).
Proof. by move=> keep; elim: s w => [|i s IH] w //= /keep/IH. Qed.

(** No entry of a result is [unused], whatever the two strings. *)
Lemma evaluate_used (n : nat) (target guess : string) :
  all (fun s => s != unused) (evaluate n target guess).
Proof.
rewrite /evaluate /pass2 /pass1 -/(used _).
apply: used_foldl; first exact: used_pass2_step.
apply: used_foldl; first exact: used_pass1_step.
by rewrite /used /= all_nseq orbT.
Qed.

End EvaluateUsed.

Section Recorded.
Import WordleGame.

Variable target : string.

Record play_inv (g : t) : Prop := PlayInv {
  pinv_target : targetWord g = target;
  pinv_valid :
    all (fun x => isValidWord (word x)
                  && (result x == Evaluator.evaluate wordLength target (word x)))
        (guesses g);
  pinv_uniq : uniq (usedLetters g);
  pinv_used : forall c,
    (c \in usedLetters g) = has (fun x => c \in chars (word x)) (guesses g)
}.

Lemma play_inv_fresh (wl : seq string) : play_inv (fresh wl target).
Proof. by []. Qed.

Lemma play_inv_step (g : t) (a : action) : play_inv g -> play_inv (step g a).2.
Proof.
case=> Ht Hvalid Huniq Hused; case: a => [letter||] /=.
- by rewrite /addLetter; do ?case: ifP.
- by rewrite /removeLetter; do ?case: ifP.
- rewrite /submitGuess; case: ifP => // _; case: ifP => // _.
  case: ifP => // /negbFE valid; split=> //=.
  + by rewrite all_rcons Hvalid valid /evaluateGuess Ht eqxx.
  + exact: uniq_foldl_set_add.
  + by move=> c; rewrite mem_foldl_set_add has_rcons Hused orbC.
Qed.

Lemma play_inv_run (g : t) (acts : seq action) : play_inv g -> play_inv (run g acts).
Proof. by elim: acts g => [|a acts IH] g //= /play_inv_step/IH. Qed.

End Recorded.

(** X6: Every guess a session records is a word of 5 uppercase letters, stored
    with the result [evaluateGuess] gives for it against the secret word. *)
Theorem session_guesses_recorded (wl : seq string) (target : string)
    (acts : seq WordleGame.action) :
  all (fun x => WordleGame.isValidWord (word x)
                && (result x
                    == WordleGame.evaluateGuess (WordleGame.fresh wl target) (word x)))
      (WordleGame.guesses (WordleGame.play wl target acts)).
Proof.
by have [] := @play_inv_run target _ acts (play_inv_fresh target wl).
Qed.

(** X7: [usedLetters] holds each letter once, and holds exactly the letters of
    the recorded guesses. *)
Theorem session_usedLetters (wl : seq string) (target : string)
    (acts : seq WordleGame.action) :
  uniq (WordleGame.usedLetters (WordleGame.play wl target acts))
  /\ forall c : ascii,
       (c \in WordleGame.usedLetters (WordleGame.play wl target acts))
       = has (fun x => c \in chars (word x))
             (WordleGame.guesses (WordleGame.play wl target acts)).
Proof.
by have [] := @play_inv_run target _ acts (play_inv_fresh target wl).
Qed.

(** X8: [getGameState().remainingGuesses] and the number of recorded guesses
    add up to 6; it is never negative, and positive while the session is
    played. *)
Theorem session_remainingGuesses (wl : seq string) (target : string)
    (acts : seq WordleGame.action) :
  [/\ (Z.of_nat (size (WordleGameState.guesses
                         (getGameState (WordleGame.play wl target acts))))
       + WordleGameState.remainingGuesses
           (getGameState (WordleGame.play wl target acts)) = 6)%Z,
      (0 <= WordleGameState.remainingGuesses
              (getGameState (WordleGame.play wl target acts)))%Z
    & WordleGameState.gameStatus (getGameState (WordleGame.play wl target acts))
      = playing ->
      (0 < WordleGameState.remainingGuesses
             (getGameState (WordleGame.play wl target acts)))%Z].
Proof.
have [_ Hs Hb] := @session_inv_run target _ acts (session_inv_fresh target wl).
rewrite /getGameState /WordleGameState.guesses /WordleGameState.remainingGuesses
  /WordleGameState.gameStatus; split.
- by rewrite Zplus_minus.
- apply: Zle_minus_le_0; apply: (inj_le _ 6); exact/leP.
- move=> play; move: Hs; rewrite play; case: (has _ _) => //.
  case: (leqP 6 (size _)) => // lt6 _.
  by apply/Z.lt_0_sub; apply: (inj_lt _ 6); exact/ltP.
Qed.

Lemma currentGuess_step (g : WordleGame.t) (a : WordleGame.action) :
  typesOneLetter a ->
  strlen (WordleGame.currentGuess g) <= 5 ->
  strlen (WordleGame.currentGuess (WordleGame.step g a).2) <= 5.
Proof.
case: a => [letter||] /= one le5.
- rewrite /WordleGame.addLetter; case: ifP => // _; case: ifP => //= lt5.
  by case/andP: one => /eqP one _; rewrite strlen_append strlen_toUpperCase one addn1.
- rewrite /WordleGame.removeLetter; case: ifP => // _; case: ifP => //= _.
  rewrite /slice_init /strlen chars_of_list size_take.
  by case: ifP => _ //; apply: leq_trans (leq_pred _) le5.
- by rewrite /WordleGame.submitGuess; do ?case: ifP.
Qed.

(** X9: When letters are typed one ASCII character at a time, the current
    guess never grows beyond 5 characters. *)
Theorem session_currentGuess_bound (wl : seq string) (target : string)
    (acts : seq WordleGame.action) :
  all typesOneLetter acts ->
  strlen (WordleGame.currentGuess (WordleGame.play wl target acts)) <= 5.
Proof.
rewrite /WordleGame.play.
have: strlen (WordleGame.currentGuess (WordleGame.fresh wl target)) <= 5 by [].
elim: acts (WordleGame.fresh wl target) => [|a acts IH] g //= le5 /andP[one ones].
by apply: IH ones; apply: currentGuess_step.
Qed.

Lemma session_currentGuess_bound_witness :
  strlen (WordleGame.currentGuess
            (WordleGame.play [::] "HELLO"
               [seq WordleGame.AddLetter (String c EmptyString)
                  | c <- chars "abcdefgh"])) <= 5.
Proof.
exact: (@session_currentGuess_bound [::] "HELLO"
          [seq WordleGame.AddLetter (String c EmptyString) | c <- chars "abcdefgh"]
          erefl).
Defined.

(** X10: While the session is played and the guess is short of 5 characters,
    [removeLetter] undoes the [addLetter] of one ASCII character. *)
Theorem removeLetter_addLetter (g : WordleGame.t) (c : ascii) :
  is_ascii c ->
  WordleGame.gameStatus g = playing ->
  strlen (WordleGame.currentGuess g) < 5 ->
  WordleGame.addLetter (String c EmptyString) g
  = (true, (WordleGame.addLetter (String c EmptyString) g).2)
  /\ WordleGame.removeLetter (WordleGame.addLetter (String c EmptyString) g).2
     = (true, g).
Proof.
move=> _ play lt5.
rewrite /WordleGame.addLetter play /= lt5 /=; split=> //.
rewrite /WordleGame.removeLetter /= strlen_append addn1 /=.
rewrite -[toUpperCase _]/(String (upper_char c) EmptyString) slice_init_append1.
by case: g play lt5 => wl tw cg gs st ul /= ->.
Qed.

Lemma removeLetter_addLetter_witness :
  WordleGame.removeLetter
    (WordleGame.addLetter "h" (WordleGame.fresh [::] "HELLO")).2
  = (true, WordleGame.fresh [::] "HELLO").
Proof.
by have [_ ->] := @removeLetter_addLetter (WordleGame.fresh [::] "HELLO") "h"%char
                    erefl erefl erefl.
Defined.

Lemma letterStatus_in_char (target : string) (c : ascii) (gs : seq Guess) :
  all (fun x => WordleGame.isValidWord (word x)
                && (result x == Evaluator.evaluate wordLength target (word x))) gs ->
  (WordleGame.letterStatus_in (String c EmptyString) gs != None)
  && ((WordleGame.letterStatus_in (String c EmptyString) gs == Some unused)
      == ~~ has (fun x => c \in chars (word x)) gs).
Proof.
elim: gs => [|x gs IH] //= /andP[/andP[valid /eqP res] /IH {}IH].
rewrite index_char; case: ifP => [cx|_] //=.
have lt5: index c (chars (word x)) < wordLength.
  by rewrite /wordLength -(isValidWord_size valid) index_mem.
rewrite res size_evaluate lt5 /=.
have /allP/(_ (nth unused (Evaluator.evaluate wordLength target (word x))
                  (index c (chars (word x))))) :=
  evaluate_used wordLength target (word x).
by rewrite mem_nth ?size_evaluate // => /(_ isT); case: (nth _ _ _).
Qed.

(** X11: In a session, [getLetterStatus] of one ASCII character always finds a
    state, and that state is [unused] exactly when the letter, in upper
    case, is not among [usedLetters]. *)
Theorem getLetterStatus_unused (wl : seq string) (target : string)
    (acts : seq WordleGame.action) (c : ascii) :
  is_ascii c ->
  WordleGame.getLetterStatus (WordleGame.play wl target acts) (String c EmptyString)
    != None
  /\ (WordleGame.getLetterStatus (WordleGame.play wl target acts)
        (String c EmptyString) == Some unused)
     = (upper_char c \notin WordleGame.usedLetters (WordleGame.play wl target acts)).
Proof.
move=> _.
have [_ valid _ used] := @play_inv_run target _ acts (play_inv_fresh target wl).
rewrite /WordleGame.getLetterStatus.
rewrite -[toUpperCase _]/(String (upper_char c) EmptyString) used.
by have /andP[-> /eqP] := letterStatus_in_char (upper_char c) valid.
Qed.

Lemma getLetterStatus_unused_witness :
  WordleGame.getLetterStatus
    (WordleGame.play [::] "HELLO" (WordleGame.typeWord "LAAAA")) "h" != None
  /\ (WordleGame.getLetterStatus
        (WordleGame.play [::] "HELLO" (WordleGame.typeWord "LAAAA")) "h"
      == Some unused)
     = (upper_char "h"
          \notin WordleGame.usedLetters
                   (WordleGame.play [::] "HELLO" (WordleGame.typeWord "LAAAA"))).
Proof.
exact: (@getLetterStatus_unused [::] "HELLO" (WordleGame.typeWord "LAAAA") "h"%char
          erefl).
Defined.

Lemma is_upper_upper_char (c : ascii) : is_letter c -> is_upper (upper_char c).
Proof. by case: c => [] [] [] [] [] [] [] [] []. Qed.

Lemma append_assoc (a b c : string) : append (append a b) c = append a (append b c).
Proof. by apply: chars_inj; rewrite !chars_append catA. Qed.

Lemma toUpperCase_cons (c : ascii) (s : string) :
  toUpperCase (String c s) = String (upper_char c) (toUpperCase s).
Proof. by []. Qed.

Lemma run_rcons (g : WordleGame.t) (acts : seq WordleGame.action)
    (a : WordleGame.action) :
  WordleGame.run g (rcons acts a) = (WordleGame.step (WordleGame.run g acts) a).2.
Proof. by rewrite /WordleGame.run -cats1 foldl_cat. Qed.

Lemma run_letters (s : string) (g : WordleGame.t) :
  WordleGame.gameStatus g = playing ->
  strlen (WordleGame.currentGuess g) + strlen s <= 5 ->
  WordleGame.run g [seq WordleGame.AddLetter (String c EmptyString) | c <- chars s]
  = WordleGame.Game (WordleGame.wordList g) (WordleGame.targetWord g)
      (append (WordleGame.currentGuess g) (toUpperCase s))
      (WordleGame.guesses g) (WordleGame.gameStatus g) (WordleGame.usedLetters g).
Proof.
elim: s g => [|c s IH] g play le5 /=.
  case: g play le5 => wl tw cg gs st ul /= _ _; congr WordleGame.Game.
  by apply: chars_inj; rewrite chars_append cats0.
have lt5: strlen (WordleGame.currentGuess g) < wordLength.
  by apply: leq_trans le5; rewrite /strlen /= addnS ltnS leq_addr.
rewrite /WordleGame.addLetter play /= lt5 /= IH //=.
  rewrite strlen_append -[toUpperCase _]/(String (upper_char c) EmptyString).
  by rewrite addn1 addSnnS.
by rewrite append_assoc.
Qed.

(** X12: Typing a word of 5 letters, in either case, into a session that is
    played and holds no partial guess, then submitting it, records the
    word in upper case with its evaluation; the session is won if that is
    the secret word, lost if it was the sixth guess, and played on
    otherwise. *)
Theorem typeWord_recorded (g : WordleGame.t) (w : string) :
  WordleGame.gameStatus g = playing ->
  WordleGame.currentGuess g = EmptyString ->
  strlen w = 5 ->
  all is_letter (chars w) ->
  WordleGame.guesses (WordleGame.run g (WordleGame.typeWord w))
  = rcons (WordleGame.guesses g)
          (MkGuess (toUpperCase w) (WordleGame.evaluateGuess g (toUpperCase w)))
  /\ WordleGame.gameStatus (WordleGame.run g (WordleGame.typeWord w))
     = if toUpperCase w == WordleGame.targetWord g then won
       else if 5 <= size (WordleGame.guesses g) then lost else playing.
Proof.
move=> play empty len5 letters.
rewrite /WordleGame.typeWord run_rcons run_letters ?empty ?len5 //=.
rewrite /WordleGame.submitGuess /= play /= strlen_toUpperCase len5 /=.
have -> /= : WordleGame.isValidWord (toUpperCase w).
  rewrite /WordleGame.isValidWord strlen_toUpperCase len5 /= chars_toUpperCase.
  by rewrite all_map; apply: sub_all letters => c; exact: is_upper_upper_char.
by split=> //; rewrite /WordleGame.checkGameStatus size_rcons last_rcons.
Qed.

Lemma typeWord_recorded_witness :
  WordleGame.guesses
    (WordleGame.run (WordleGame.fresh [::] "HELLO") (WordleGame.typeWord "hello"))
  = [:: MkGuess "HELLO" (nseq 5 correct)]
  /\ WordleGame.gameStatus
       (WordleGame.run (WordleGame.fresh [::] "HELLO") (WordleGame.typeWord "hello"))
     = won.
Proof.
exact: (@typeWord_recorded (WordleGame.fresh [::] "HELLO") "hello"
          erefl erefl erefl erefl).
Defined.

Lemma isValidWord_toUpperCase (w : string) :
  fiveLetters w -> WordleGame.isValidWord (toUpperCase w).
Proof.
case/andP=> len5 letters.
rewrite /WordleGame.isValidWord strlen_toUpperCase len5 /= chars_toUpperCase.
by rewrite all_map; apply: sub_all letters => c; exact: is_upper_upper_char.
Qed.



Section Submissions.
Import WordleGame.

Lemma run_cat (g : t) (acts acts' : seq action) :
  run g (acts ++ acts') = run (run g acts) acts'.
Proof. by rewrite /run foldl_cat. Qed.

(** A 5-letter word typed and submitted on a playing session with no text
    pending is recorded; the session is left with no text pending. *)
Lemma run_typeWord (g : t) (w : string) :
  gameStatus g = playing -> currentGuess g = EmptyString -> fiveLetters w ->
  [/\ currentGuess (run g (typeWord w)) = EmptyString,
      targetWord (run g (typeWord w)) = targetWord g,
      size (guesses (run g (typeWord w))) = (size (guesses g)).+1
    & gameStatus (run g (typeWord w))
      = if toUpperCase w == targetWord g then won
        else if 5 <= size (guesses g) then lost else playing].
Proof.
move=> play empty five; have /andP[/eqP len5 _] := five.
rewrite /typeWord run_rcons run_letters ?empty ?len5 //=.
rewrite /submitGuess /= play /= strlen_toUpperCase len5 /=.
rewrite isValidWord_toUpperCase //=; split=> //; first by rewrite size_rcons.
by rewrite /checkGameStatus size_rcons last_rcons.
Qed.

(** The status after the submissions [ws], on a session with [k] guesses
    left. *)
Lemma gameStatus_typeWords (ws : seq string) (g : t) (k : nat) :
  all fiveLetters ws ->
  gameStatus g = playing -> currentGuess g = EmptyString ->
  size (guesses g) + k = 6 -> 0 < k ->
  gameStatus (run g (typeWords ws))
  = if has (fun w => toUpperCase w == targetWord g) (take k ws) then won
    else if k <= size ws then lost else playing.
Proof.
elim: ws g k => [|w ws IH] g [|k] //= /andP[five fives] play empty sz _.
rewrite /typeWords /= run_cat -/(typeWords ws).
have [empty1 target1 size1 status1] := run_typeWord play empty five.
case: (toUpperCase w =P targetWord g) status1 => [_|_] status1 /=.
  by rewrite terminal_run status1.
have sz5 : size (guesses g) + k = 5 by move: sz; rewrite addnS => -[].
move: status1; rewrite -sz5 -[X in _ <= X]addn0 leq_add2l leqn0.
case: k sz {sz5} => [|k] sz /= status1; first by rewrite terminal_run status1 // take0.
by rewrite (IH _ k.+1) ?target1 ?size1 // addSnnS.
Qed.

End Submissions.

(** C3: in every session, whatever 5-letter words are submitted, one after
    the other: the status becomes [lost] exactly when 6 guesses were
    submitted and none of the first 6 is the secret word; it becomes [won]
    exactly when one of the first 6 is the secret word (a guess after the
    sixth, or after the secret word, is not accepted).  And whatever the
    moves made on a session, stray letters, deletions and refused
    submissions included: the status is [lost] exactly when 6 guesses are
    recorded and none of them is the secret word, [won] exactly when a
    recorded guess is the secret word, and once it is [won] or [lost],
    [addLetter], [removeLetter] and [submitGuess] each return [false] and
    leave the session unchanged. *)
Theorem session_outcome (wl : seq string) (target : string) (ws : seq string) :
  all fiveLetters ws ->
  [/\ WordleGame.gameStatus (WordleGame.play wl target (typeWords ws)) = lost
      <-> 6 <= size ws /\ all (fun w => toUpperCase w != target) (take 6 ws),
      WordleGame.gameStatus (WordleGame.play wl target (typeWords ws)) = won
      <-> has (fun w => toUpperCase w == target) (take 6 ws)
    & forall acts : seq WordleGame.action,
        [/\ WordleGame.gameStatus (WordleGame.play wl target acts) = lost
            <-> size (WordleGame.guesses (WordleGame.play wl target acts)) = 6
                /\ all (fun x => word x != target)
                       (WordleGame.guesses (WordleGame.play wl target acts)),
            WordleGame.gameStatus (WordleGame.play wl target acts) = won
            <-> has (fun x => word x == target)
                    (WordleGame.guesses (WordleGame.play wl target acts))
          & WordleGame.gameStatus (WordleGame.play wl target acts) != playing ->
            [/\ forall letter,
                  WordleGame.addLetter letter (WordleGame.play wl target acts)
                  = (false, WordleGame.play wl target acts),
                WordleGame.removeLetter (WordleGame.play wl target acts)
                = (false, WordleGame.play wl target acts)
              & WordleGame.submitGuess (WordleGame.play wl target acts)
                = (false, WordleGame.play wl target acts)]]].
Proof.
move=> fives.
have status : WordleGame.gameStatus (WordleGame.play wl target (typeWords ws))
              = if has (fun w => toUpperCase w == target) (take 6 ws) then won
                else if 6 <= size ws then lost else playing.
  exact: (@gameStatus_typeWords ws (WordleGame.fresh wl target) 6).
split.
- have -> : all (fun w => toUpperCase w != target) (take 6 ws)
            = ~~ has (fun w => toUpperCase w == target) (take 6 ws).
    by rewrite -all_predC.
  rewrite status; case: (has _ _) => /=; first by split=> // -[].
  by case: (leqP 6 (size ws)) => _; split=> // -[].
- by rewrite status; case: (has _ _) => //; case: ifP.
- move=> acts.
  have inv : session_inv target (WordleGame.play wl target acts).
    exact/session_inv_run/session_inv_fresh.
  split; [exact: session_inv_lost | exact: session_inv_won |].
  move=> over; split=> [letter||].
  + exact: (terminal_step (WordleGame.AddLetter letter) over).
  + exact: (terminal_step WordleGame.RemoveLetter over).
  + exact: (terminal_step WordleGame.SubmitGuess over).
Qed.

Lemma session_outcome_witness :
  WordleGame.gameStatus
    (WordleGame.play [::] "HELLO"
       (typeWords
          [:: "WORLD"; "crane"; "Apple"; "GRAPE"; "lemon"; "WORLD"; "HELLO"]%string))
  = lost.
Proof.
have [is_lost _ _] :=
  @session_outcome [::] "HELLO"
    [:: "WORLD"; "crane"; "Apple"; "GRAPE"; "lemon"; "WORLD"; "HELLO"]%string erefl.
by apply/is_lost.
Defined.

(* ================================================================== *)
(** * The state manager: history, achievements and the stored item *)

Section HistoryStatistics.
Import GameStateManager StateOperations.

Record history_inv (m : t) : Prop := HistoryInv {
  hinv_played : Statistics.gamesPlayed (statistics m) = size (gameHistory m);
  hinv_won : Statistics.gamesWon (statistics m)
             = count (fun e => HistoryEntry.gameStatus e == won) (gameHistory m);
  hinv_current : Statistics.currentStreak (statistics m) = leadingWins (gameHistory m);
  hinv_max : Statistics.maxStreak (statistics m) = longestWinRun (gameHistory m)
}.

Lemma history_inv_finalizeGame now today game (m : t) :
  history_inv m -> history_inv (finalizeGame now today game m).
Proof.
case=> Hp Hw Hc Hm; split;
  rewrite statistics_finalizeGame gameHistory_finalizeGame /updateStatistics /=
          /leadingWins /=;
  case: ifP => _ /=; rewrite ?Hp ?Hw ?Hc ?Hm ?add1n ?add0n ?max0n //.
by rewrite maxnC.
Qed.

Lemma history_inv_finalizeAll (calls : seq finalization) (m : t) :
  history_inv m -> history_inv (finalizeAll calls m).
Proof.
by elim: calls m => [|c calls IH] m //= /(history_inv_finalizeGame _ _ _)/IH.
Qed.

End HistoryStatistics.

(** X14: Over any finalizations on a new manager, the counters are those of the
    history: [gamesPlayed] is its length, [gamesWon] the number of its won
    entries, [currentStreak] the run of won entries at its head (the
    newest games) and [maxStreak] its longest run of won entries. *)
Theorem statistics_of_history (calls : seq GameStateManager.finalization) :
  [/\ Statistics.gamesPlayed
        (GameStateManager.statistics
           (GameStateManager.finalizeAll calls GameStateManager.create))
      = size (GameStateManager.gameHistory
                (GameStateManager.finalizeAll calls GameStateManager.create)),
      Statistics.gamesWon
        (GameStateManager.statistics
           (GameStateManager.finalizeAll calls GameStateManager.create))
      = count (fun e => HistoryEntry.gameStatus e == won)
              (GameStateManager.gameHistory
                 (GameStateManager.finalizeAll calls GameStateManager.create)),
      Statistics.currentStreak
        (GameStateManager.statistics
           (GameStateManager.finalizeAll calls GameStateManager.create))
      = StateOperations.leadingWins
          (GameStateManager.gameHistory
             (GameStateManager.finalizeAll calls GameStateManager.create))
    & Statistics.maxStreak
        (GameStateManager.statistics
           (GameStateManager.finalizeAll calls GameStateManager.create))
      = StateOperations.longestWinRun
          (GameStateManager.gameHistory
             (GameStateManager.finalizeAll calls GameStateManager.create))].
Proof.
by have [] := @history_inv_finalizeAll calls GameStateManager.create
                (HistoryInv (m := GameStateManager.create) erefl erefl erefl erefl).
Qed.

Section Achievements.
Import GameStateManager StateOperations.

(** What one finalization adds to the achievements held. *)
Lemma hasAchievement_finalizeGame now today game (m : t) :
  [/\ hasAchievement "first_win" (state (finalizeGame now today game m))
      = hasAchievement "first_win" (state m)
        || (Statistics.gamesWon (updateStatistics game (statistics m)) == 1),
      hasAchievement "streak_master" (state (finalizeGame now today game m))
      = hasAchievement "streak_master" (state m)
        || (5 <= Statistics.currentStreak (updateStatistics game (statistics m))),
      hasAchievement "perfect_game" (state (finalizeGame now today game m))
      = hasAchievement "perfect_game" (state m)
        || ((Game.gameStatus game == won) && (size (Game.guesses game) == 1))
    & hasAchievement "word_master" (state (finalizeGame now today game m))
      = hasAchievement "word_master" (state m)
        || (10 <= Statistics.gamesPlayed (updateStatistics game (statistics m)))].
Proof.
rewrite /hasAchievement /finalizeGame /= /checkAchievements /= !has_cat.
rewrite /hasAchievement /= /statistics.
set h1 := has (fun a => Achievement.id a == "first_win"%string) _.
set h2 := has (fun a => Achievement.id a == "streak_master"%string) _.
set h3 := has (fun a => Achievement.id a == "perfect_game"%string) _.
set h4 := has (fun a => Achievement.id a == "word_master"%string) _.
set c1 := (_ == 1); set c2 := (4 < _); set c4 := (9 < _).
set c3 := (Game.gameStatus game == won); set c5 := (size _ == 1).
by split; case: h1; case: h2; case: h3; case: h4;
   case: c1; case: c2; case: c3; case: c4; case: c5.
Qed.

Record achievement_inv (m : t) : Prop := AchievementInv {
  ainv_history : history_inv m;
  ainv_first : hasAchievement "first_win" (state m)
               = (0 < Statistics.gamesWon (statistics m));
  ainv_streak : hasAchievement "streak_master" (state m)
                = (5 <= Statistics.maxStreak (statistics m));
  ainv_perfect : hasAchievement "perfect_game" (state m)
                 = has perfect (gameHistory m);
  ainv_word : hasAchievement "word_master" (state m)
              = (10 <= Statistics.gamesPlayed (statistics m))
}.

Lemma achievement_inv_create : achievement_inv create.
Proof. by split. Qed.

Lemma achievement_inv_finalizeGame now today game (m : t) :
  achievement_inv m -> achievement_inv (finalizeGame now today game m).
Proof.
case=> Hh H1 H2 H3 H4.
have [E1 E2 E3 E4] := hasAchievement_finalizeGame now today game m.
split; first exact: history_inv_finalizeGame.
- rewrite E1 H1 statistics_finalizeGame gamesWon_update.
  by case: (Statistics.gamesWon _) => [|[|n]]; case: (_ == won).
- rewrite E2 H2 statistics_finalizeGame /updateStatistics.
  case: ifP => _ /=; last by rewrite orbF.
  by rewrite leq_max.
- by rewrite E3 H3 gameHistory_finalizeGame /= orbC /perfect.
- by rewrite E4 H4 statistics_finalizeGame /updateStatistics;
     case: ifP => _ /=; case: (Statistics.gamesPlayed _) => [|[|[|[|[|[|[|[|[|[|n]]]]]]]]]].
Qed.

Lemma achievement_inv_finalizeAll (calls : seq finalization) (m : t) :
  achievement_inv m -> achievement_inv (finalizeAll calls m).
Proof.
by elim: calls m => [|c calls IH] m //= /(achievement_inv_finalizeGame _ _ _)/IH.
Qed.

Lemma hasAchievement_mem (x : string) (s : State.t) :
  hasAchievement x s = (x \in [seq Achievement.id a | a <- State.achievements s]).
Proof. by rewrite /hasAchievement -has_pred1 has_map. Qed.

Lemma uniq_finalizeGame now today game (m : t) :
  uniq [seq Achievement.id a | a <- achievements m] ->
  uniq [seq Achievement.id a | a <- achievements (finalizeGame now today game m)].
Proof.
rewrite /achievements /finalizeGame /= /checkAchievements /= !hasAchievement_mem /=.
rewrite map_cat cat_uniq => ->.
set ids := [seq Achievement.id a | a <- _].
set c1 := (_ == 1); set c2 := (4 < _); set c4 := (9 < _).
set c3 := (Game.gameStatus game == won); set c5 := (size _ == 1).
case h1: ("first_win"%string \in ids); case h2: ("streak_master"%string \in ids);
case h3: ("perfect_game"%string \in ids); case h4: ("word_master"%string \in ids);
by case: c1; case: c2; case: c3; case: c4; case: c5; rewrite /= ?h1 ?h2 ?h3 ?h4.
Qed.

End Achievements.

(** X15: Over any finalizations on a new manager, each achievement is held
    exactly when it has been earned: ['first_win'] when a game has been
    won, ['streak_master'] when [maxStreak] has reached 5,
    ['perfect_game'] when the history has a game won at the first guess,
    ['word_master'] when 10 games have been played. *)
Theorem achievements_earned (calls : seq GameStateManager.finalization) :
  [/\ GameStateManager.hasAchievement "first_win"
        (GameStateManager.state
           (GameStateManager.finalizeAll calls GameStateManager.create))
      = (0 < Statistics.gamesWon
               (GameStateManager.statistics
                  (GameStateManager.finalizeAll calls GameStateManager.create))),
      GameStateManager.hasAchievement "streak_master"
        (GameStateManager.state
           (GameStateManager.finalizeAll calls GameStateManager.create))
      = (5 <= Statistics.maxStreak
                (GameStateManager.statistics
                   (GameStateManager.finalizeAll calls GameStateManager.create))),
      GameStateManager.hasAchievement "perfect_game"
        (GameStateManager.state
           (GameStateManager.finalizeAll calls GameStateManager.create))
      = has StateOperations.perfect
            (GameStateManager.gameHistory
               (GameStateManager.finalizeAll calls GameStateManager.create))
    & GameStateManager.hasAchievement "word_master"
        (GameStateManager.state
           (GameStateManager.finalizeAll calls GameStateManager.create))
      = (10 <= Statistics.gamesPlayed
                 (GameStateManager.statistics
                    (GameStateManager.finalizeAll calls GameStateManager.create)))].
Proof.
by have [] := achievement_inv_finalizeAll calls achievement_inv_create.
Qed.

(** X16: Over any finalizations on a new manager, no achievement id is held
    twice. *)
Theorem achievements_distinct (calls : seq GameStateManager.finalization) :
  uniq [seq Achievement.id a
          | a <- GameStateManager.achievements
                   (GameStateManager.finalizeAll calls GameStateManager.create)].
Proof.
have: uniq [seq Achievement.id a
              | a <- GameStateManager.achievements GameStateManager.create] by [].
elim: calls GameStateManager.create => [|c calls IH] m //= uniq_m.
by apply: IH; apply: uniq_finalizeGame.
Qed.

Section StoredItem.
Import GameStateManager StateOperations.

(** The state in memory is well formed and is what a reload would read. *)
Definition in_sync (m : t) : Prop :=
  wellFormed (state m)
  /\ constructed (localStorage m) = Repr.of_State (state m).

Lemma in_sync_saved (m : t) :
  wellFormed (state m) ->
  localStorage m = Persistence.saveState (Repr.of_State (state m)) ->
  in_sync m.
Proof.
move=> wf_m stored; split=> //; rewrite /constructed stored.
apply: roundtrip_on_values; [exact: wf_of_State | by [] | exact: restore_of_State].
Qed.

Lemma in_sync_perform (m : t) (op : operation) : in_sync m -> in_sync (perform m op).
Proof.
case=> wf_m sync_m; case: op => [now gid rnd wl|c|c||] /=;
  try by apply: in_sync_saved.
rewrite /submitOrKeep.
case sub: (submitGuess _ _ _ m) => [m'|] //; apply: in_sync_saved.
  exact: wellFormed_submitGuess sub.
move: sub; rewrite /submitGuess; case: (State.currentGame _) => // game.
by case: ifP => // _ [<-].
Qed.

End StoredItem.

(** X17: After any sequence of state-changing calls on a new manager, the item
    in [localStorage] is in step with the state in memory: a manager
    constructed on that item starts with exactly that state. *)
Theorem stored_item_in_sync (ops : seq StateOperations.operation) :
  StateOperations.constructed
    (GameStateManager.localStorage
       (foldl StateOperations.perform GameStateManager.create ops))
  = Repr.of_State
      (GameStateManager.state
         (foldl StateOperations.perform GameStateManager.create ops)).
Proof.
have: in_sync GameStateManager.create by split.
elim: ops GameStateManager.create => [|op ops IH] m /=; first by case.
by move/(in_sync_perform op); apply: IH.
Qed.

Section ExportImport.
Import Json Repr GameStateManager StateOperations.

Lemma stringify_plain_map (T : Type) (f : T -> value) (s : seq T) :
  (forall x, stringify_plain (f x) = f x) ->
  [seq stringify_plain v | v <- [seq f x | x <- s]] = [seq f x | x <- s].
Proof. by move=> fixed; rewrite -map_comp; apply: eq_map. Qed.

Lemma stringify_plain_onum (n : option Z) : stringify_plain (onum n) = onum n.
Proof. by case: n. Qed.

Lemma stringify_plain_of_HistoryEntry (h : HistoryEntry.t) :
  stringify_plain (of_HistoryEntry h) = of_HistoryEntry h.
Proof. by rewrite /= stringify_plain_onum. Qed.

Lemma stringify_plain_of_GuessEntry (x : GuessEntry.t) :
  stringify_plain (of_GuessEntry x) = of_GuessEntry x.
Proof. by rewrite /= stringify_plain_map //; case. Qed.

(** What [exportState] writes for the state [s]: the state itself, but for
    the [Set] of the game in progress, written as the empty object. *)
Definition exported_Game (g : Game.t) : value :=
  VObj (Persistence.put "usedLetters" (VObj [::])
          (if of_Game g is VObj kvs then kvs else [::])).

Lemma stringify_plain_of_Game (g : Game.t) :
  stringify_plain (of_Game g) = exported_Game g.
Proof.
rewrite /exported_Game /= stringify_plain_onum.
rewrite (stringify_plain_map _ stringify_plain_of_GuessEntry).
by rewrite (@stringify_plain_map _ str).
Qed.

Lemma exportState_of_State (s : State.t) :
  exportState (of_State s)
  = VObj [:: ("currentGame",
              if State.currentGame s is Some g then exported_Game g else VNull);
             ("gameHistory", VArr [seq of_HistoryEntry h | h <- State.gameHistory s]);
             ("statistics", of_Statistics (State.statistics s));
             ("settings", of_Settings (State.settings s));
             ("achievements", VArr [seq of_Achievement a | a <- State.achievements s]);
             ("lastPlayed", onum (State.lastPlayed s))]%string.
Proof.
rewrite /exportState /of_State.
rewrite [stringify_plain _]/= -/(stringify_plain (of_Statistics _)).
rewrite stringify_plain_onum.
rewrite (stringify_plain_map _ stringify_plain_of_HistoryEntry).
rewrite (@stringify_plain_map _ of_Achievement) //.
rewrite (@stringify_plain_map _ num) //.
by case: (State.currentGame s) => [g|] //; rewrite stringify_plain_of_Game.
Qed.

End ExportImport.



(** X19: With a game in progress, [importState] of what [exportState] wrote
    still answers [true], but the imported game's [usedLetters] is an
    empty plain object: the letters are lost and the value is no [Set]. *)
Theorem exportState_loses_usedLetters (s : State.t) (game : Game.t)
    (current : Json.value) (item : option Json.value) :
  State.currentGame s = Some game ->
  (StateOperations.importState
     (Some (StateOperations.exportState (Repr.of_State s))) current item).1.1 = true
  /\ Persistence.field [:: "currentGame"; "usedLetters"]%string
       (StateOperations.importState
          (Some (StateOperations.exportState (Repr.of_State s))) current item).1.2
     = Some (Json.VObj [::]).
Proof.
by move=> running; rewrite exportState_of_State running.
Qed.

Lemma exportState_loses_usedLetters_witness :
  Persistence.field [:: "currentGame"; "usedLetters"]%string
    (StateOperations.importState
       (Some (StateOperations.exportState
                (Repr.of_State
                   (State.Make (Some Sample.wonGame) [::]
                      GameStateManager.initialStatistics
                      GameStateManager.initialSettings [::] None))))
       Json.VNull None).1.2
  = Some (Json.VObj [::]).
Proof.
by have [] := @exportState_loses_usedLetters
                (State.Make (Some Sample.wonGame) [::]
                   GameStateManager.initialStatistics
                   GameStateManager.initialSettings [::] None)
                Sample.wonGame Json.VNull None erefl.
Defined.

(** X20: When the controller submits a guess that [WordleGame] accepts to the
    state manager as well, the manager accepts it, and its game record
    goes on mirroring the session: same guesses and results, same status,
    same used letters. *)
Theorem submitGuess_mirrored (now : Z) (today : string) (g g' : WordleGame.t)
    (m : GameStateManager.t) (game : Game.t) :
  mirrors g game ->
  State.currentGame (GameStateManager.state m) = Some game ->
  WordleGame.submitGuess g = (true, g') ->
  exists2 m' : GameStateManager.t,
    GameStateManager.submitGuess now today (WordleGame.currentGuess g) m = Some m'
    & exists2 game' : Game.t,
        State.currentGame (GameStateManager.state m') = Some game'
        & mirrors g' game'.
Proof.
case/and5P=> /eqP Ht /eqP Hg /eqP Hs /eqP Hu /eqP Hm cur.
rewrite /WordleGame.submitGuess.
case: ifP => // /negbFE/eqP play; case: ifP => // _; case: ifP => // _ [<-].
have play' : Game.gameStatus game = playing by rewrite Hs.
rewrite (submitGuess_playing now today _ cur play').
set game' := guessed _ _ _; eexists; first by [].
exists game'; first by case: ifP.
have size_g : size (Game.guesses game) = size (WordleGame.guesses g).
  by rewrite -(size_map (fun x => (GuessEntry.word x, GuessEntry.result x))) Hg size_map.
rewrite /mirrors /= /game' /guessed /GameStateManager.checkGameStatus /=.
rewrite /WordleGame.checkGameStatus !size_rcons !last_rcons /= Ht Hm size_g play' play.
rewrite /WordleGame.evaluateGuess /GameStateManager.evaluateGuess Hu.
by case: ifP => _ /=; [|case: ifP => _ /=];
   rewrite !map_rcons /= Hg !eqxx.
Qed.

Lemma submitGuess_mirrored_witness :
  exists2 m' : GameStateManager.t,
    GameStateManager.submitGuess 1000%Z "2024-01-01" "HELLO"
      (GameStateManager.initializeNewGame 0%Z "game" 0 [:: "hello"%string]
         GameStateManager.create) = Some m'
    & exists2 game' : Game.t,
        State.currentGame (GameStateManager.state m') = Some game'
        & mirrors
            (WordleGame.submitGuess
               (WordleGame.run (WordleGame.fresh [:: "hello"%string] "HELLO")
                  [seq WordleGame.AddLetter (String c EmptyString)
                     | c <- chars "HELLO"])).2
            game'.
Proof.
exact: (@submitGuess_mirrored 1000%Z "2024-01-01"
          (WordleGame.run (WordleGame.fresh [:: "hello"%string] "HELLO")
             [seq WordleGame.AddLetter (String c EmptyString) | c <- chars "HELLO"])
          (WordleGame.submitGuess
             (WordleGame.run (WordleGame.fresh [:: "hello"%string] "HELLO")
                [seq WordleGame.AddLetter (String c EmptyString)
                   | c <- chars "HELLO"])).2
          (GameStateManager.initializeNewGame 0%Z "game" 0 [:: "hello"%string]
             GameStateManager.create)
          (Game.Make "game" "HELLO" "" [::] playing 6 5 0%Z None [::]
                     [:: "hello"%string])
          erefl erefl erefl).
Defined.

Section Reset.
Import GameStateManager StateOperations.

Lemma gameHistory_finalizeAll (calls : seq finalization) (m : t) :
  gameHistory (finalizeAll calls m)
  = rev [seq historyEntry (fin_today c) (fin_game c) | c <- calls] ++ gameHistory m.
Proof.
elim: calls m => [|c calls IH] m //=.
by rewrite IH gameHistory_finalizeGame rev_cons cat_rcons.
Qed.

Lemma gamesPlayed_finalizeAll (calls : seq finalization) (m : t) :
  Statistics.gamesPlayed (statistics (finalizeAll calls m))
  = Statistics.gamesPlayed (statistics m) + size calls.
Proof.
elim: calls m => [|c calls IH] m /=; first by rewrite addn0.
rewrite IH statistics_finalizeGame /updateStatistics.
by case: ifP => _ /=; rewrite addSnnS.
Qed.

End Reset.

(** X21: [resetStatistics] clears the counters and the achievements but not the
    history: after finalizations, a reset and more finalizations,
    [gamesPlayed] counts the games since the reset, while the history, and
    with it the [averageGuesses] of the derived view, still covers every
    game, newest first. *)
Theorem resetStatistics_keeps_history
    (earlier later : seq GameStateManager.finalization) :
  Statistics.gamesPlayed
    (GameStateManager.statistics
       (GameStateManager.finalizeAll later
          (StateOperations.resetStatistics
             (GameStateManager.finalizeAll earlier GameStateManager.create))))
  = size later
  /\ GameStateManager.gameHistory
       (GameStateManager.finalizeAll later
          (StateOperations.resetStatistics
             (GameStateManager.finalizeAll earlier GameStateManager.create)))
     = rev [seq GameStateManager.historyEntry
                  (GameStateManager.fin_today c) (GameStateManager.fin_game c)
              | c <- earlier ++ later].
Proof.
rewrite gamesPlayed_finalizeAll !gameHistory_finalizeAll add0n; split=> //.
rewrite -[GameStateManager.gameHistory (StateOperations.resetStatistics _)]
          /(GameStateManager.gameHistory (GameStateManager.finalizeAll earlier _)).
by rewrite gameHistory_finalizeAll cats0 map_cat rev_cat.
Qed.

(* ================================================================== *)
(** * The keyboard colours *)

Section Keyboard.
Import VirtualKeyboard WordleController.

Lemma Map_get_set (key key' : string) (v : LetterState)
    (m : seq (string * LetterState)) :
  Map_get key' (Map_set key v m) = if key == key' then Some v else Map_get key' m.
Proof.
elim: m => [|[k x] m IH] /=; first by [].
case: (k =P key) => [->|ne_k] /=; first by case: ifP.
rewrite IH; case: (k =P key') => [eq_k|] //.
by case: (key =P key') => // eq_key; case: ne_k; rewrite eq_k eq_key.
Qed.

Lemma letter_key (c : ascii) :
  is_upper c -> String c EmptyString \in flatten qwerty.
Proof. by case: c => [] [] [] [] [] [] [] [] []. Qed.

Lemma toUpperCase_upper (c : ascii) :
  is_upper c -> toUpperCase (String c EmptyString) = String c EmptyString.
Proof. by case: c => [] [] [] [] [] [] [] [] []. Qed.

Lemma code_inj : injective LetterState_code.
Proof. exact: can_inj LetterState_codeK. Qed.

(** One turn of the loop leaves the better of the old and the new state on
    the key of the letter, and the other keys as they were. *)
Lemma getKeyState_step (word : string) (result : seq LetterState)
    (ls : seq (string * LetterState)) (i : nat) (c : ascii) :
  is_upper c -> is_upper (nth Ascii.zero (chars word) i) ->
  LetterState_code
    (getKeyState (String c EmptyString)
       (updateKeyboardState_step word result (Make (flatten qwerty) ls) i))
  = maxn (LetterState_code (getKeyState (String c EmptyString) (Make (flatten qwerty) ls)))
         (if nth Ascii.zero (chars word) i == c
          then LetterState_code (odflt unused (onth result i)) else 0).
Proof.
move=> up_c up_l; rewrite /updateKeyboardState_step /getKeyState /updateKeyState /=.
set l := nth _ _ _ in up_l *.
rewrite !toUpperCase_upper // letter_key //=.
have eq_l : (String l EmptyString == String c EmptyString) = (l == c).
  by apply/eqP/eqP => [[]|->].
rewrite /shouldUpdateKeyState.
case Hl: (Map_get (String l EmptyString) ls) => [cur|];
  case: (onth result i) => [new|] /=; rewrite ?if_same ?maxn0 //.
- by case: new; case: cur Hl => Hl /=; rewrite ?Map_get_set ?eq_l;
     case: (l =P c) => [eq_lc|_] //=; rewrite ?maxn0 // -?eq_lc ?Hl.
- by case: new => /=; rewrite ?Map_get_set ?eq_l;
     case: (l =P c) => [eq_lc|_] //=; rewrite ?maxn0 // -?eq_lc ?Hl.
Qed.

Lemma keys_step (word : string) (result : seq LetterState) (kb : t) (i : nat) :
  keys (updateKeyboardState_step word result kb i) = keys kb.
Proof.
rewrite /updateKeyboardState_step /updateKeyState.
by case: ifP => // _; case: (onth _ _) => // st; case: ifP.
Qed.

(** The rank the positions [s] of the word give to the letter [c]. *)
Definition rankAt (word : seq ascii) (result : seq LetterState) (c : ascii)
    (i : nat) : nat :=
  if nth Ascii.zero word i == c
  then LetterState_code (odflt unused (onth result i)) else 0.

Lemma getKeyState_loop (word : string) (result : seq LetterState) (c : ascii)
    (s : seq nat) (kb : t) :
  is_upper c -> all is_upper (chars word) -> all (fun i => i < strlen word) s ->
  keys kb = flatten qwerty ->
  LetterState_code
    (getKeyState (String c EmptyString)
       (foldl (updateKeyboardState_step word result) kb s))
  = maxn (LetterState_code (getKeyState (String c EmptyString) kb))
         (foldr maxn 0 [seq rankAt (chars word) result c i | i <- s]).
Proof.
move=> up_c up_w; elim: s kb => [|i s IH] kb /=; first by rewrite maxn0.
case/andP=> lt_i lt_s keys_kb.
rewrite IH ?keys_step // maxnA; congr (maxn _ _).
case: kb keys_kb => ks ls /= ->.
by apply: getKeyState_step => //; apply: (allP up_w); apply: mem_nth.
Qed.

Lemma rankAt_nil (word : seq ascii) (c : ascii) (s : seq nat) :
  foldr maxn 0 [seq rankAt word [::] c i | i <- s] = 0.
Proof. by elim: s => [|i s IH] //=; rewrite IH /rankAt onth0n /=; case: ifP. Qed.

Lemma rankAt_marks (word : seq ascii) (result : seq LetterState) (c : ascii) :
  foldr maxn 0 [seq rankAt word result c i | i <- iota 0 (size word)]
  = foldr maxn 0
      [seq LetterState_code st | st <- [seq p.2 | p <- zip word result & p.1 == c]].
Proof.
elim: word result => [|a word IH] [|st result] //=; first exact: (rankAt_nil _ _ (_ :: _)).
rewrite (iotaDl 1 0) -map_comp.
rewrite (@eq_map _ _ (rankAt (a :: word) (st :: result) c \o addn 1)
                     (rankAt word result c)) // IH.
by rewrite {1}/rankAt /=; case: ifP => _ //=; rewrite max0n.
Qed.

Lemma best_after_updateKeyboardState (word : string) (result : seq LetterState)
    (ls : seq (string * LetterState)) (c : ascii) :
  all is_upper (chars word) -> is_upper c ->
  LetterState_code
    (getKeyState (String c EmptyString)
       (updateKeyboardState word result (Make (flatten qwerty) ls)))
  = maxn (LetterState_code
            (getKeyState (String c EmptyString) (Make (flatten qwerty) ls)))
         (bestRank (marksOf c word result)).
Proof.
move=> up_w up_c; rewrite /updateKeyboardState.
rewrite getKeyState_loop // ?rankAt_marks //.
by apply/allP => i; rewrite mem_iota.
Qed.

End Keyboard.

(** X22: After the controller has coloured the keyboard for a guess (a word of
    upper-case letters), the key of every letter holds the best of its
    state before and the marks the result gives that letter, in the order
    correct over present over absent over unused. *)
Theorem updateKeyboardState_best (word : string) (result : seq LetterState)
    (ls : seq (string * LetterState)) (c : ascii) :
  all is_upper (chars word) -> is_upper c ->
  LetterState_code
    (VirtualKeyboard.getKeyState (String c EmptyString)
       (WordleController.updateKeyboardState word result
          (VirtualKeyboard.Make (flatten VirtualKeyboard.qwerty) ls)))
  = maxn (LetterState_code
            (VirtualKeyboard.getKeyState (String c EmptyString)
               (VirtualKeyboard.Make (flatten VirtualKeyboard.qwerty) ls)))
         (bestRank (marksOf c word result)).
Proof. exact: best_after_updateKeyboardState. Qed.

Lemma updateKeyboardState_best_witness :
  VirtualKeyboard.getKeyState "L"
    (WordleController.updateKeyboardState "AALAA"
       [:: absent; absent; correct; absent; absent]
       (WordleController.updateKeyboardState "LAAAA"
          [:: present; absent; absent; absent; absent]
          VirtualKeyboard.create))
  = correct.
Proof.
apply: code_inj.
exact: (@updateKeyboardState_best "AALAA" [:: absent; absent; correct; absent; absent]
          [:: ("L"%string, present); ("A"%string, absent)] "L"%char erefl erefl).
Defined.

(** X23: On the qwerty keyboard every physical key that names a key is handed
    on: Enter, Backspace and each single letter, in upper case; the test
    that the key exists rejects none of them, and any other key is
    ignored. *)
Theorem handlePhysicalKey_qwerty (key : string) (ls : seq (string * LetterState)) :
  VirtualKeyboard.handlePhysicalKey key
    (VirtualKeyboard.Make (flatten VirtualKeyboard.qwerty) ls)
  = if key == "Enter"%string then Some "ENTER"%string
    else if key == "Backspace"%string then Some "BACK"%string
    else if (strlen key == 1) && all is_letter (chars key)
         then Some (toUpperCase key)
    else None.
Proof.
rewrite /VirtualKeyboard.handlePhysicalKey.
case: ifP => // _; case: ifP => // _; case: ifP => // /andP[].
case: key => [|c [|d key]] //= _; rewrite andbT => letter.
rewrite (_ : toUpperCase _ \in _) //.
by case: c letter => [] [] [] [] [] [] [] [] [].
Qed.

Section KeyboardSession.
Import VirtualKeyboard WordleController.

Lemma keys_updateKeyboardState (w : string) (r : seq LetterState) (kb : t) :
  keys (updateKeyboardState w r kb) = keys kb.
Proof.
rewrite /updateKeyboardState.
by elim: (iota 0 _) kb => [|i s IH] kb //=; rewrite IH keys_step.
Qed.

Lemma bestRank_cat (a b : seq LetterState) :
  bestRank (a ++ b) = maxn (bestRank a) (bestRank b).
Proof.
by rewrite /bestRank; elim: a => [|x a IH] /=; rewrite ?max0n // IH maxnA.
Qed.

Lemma colourAll_best (gs : seq Guess) (kb : t) (c : ascii) :
  all (fun x => all is_upper (chars (word x))) gs -> is_upper c ->
  keys kb = flatten qwerty ->
  LetterState_code (getKeyState (String c EmptyString) (colourAll gs kb))
  = maxn (LetterState_code (getKeyState (String c EmptyString) kb))
         (bestRank (flatten [seq marksOf c (word x) (result x) | x <- gs])).
Proof.
move=> + up_c; elim: gs kb => [|x gs IH] kb /=; first by rewrite maxn0.
case/andP=> up_x up_gs keys_kb.
rewrite IH ?keys_updateKeyboardState // bestRank_cat maxnA; congr (maxn _ _).
by case: kb keys_kb => ks ls /= ->; apply: best_after_updateKeyboardState.
Qed.

End KeyboardSession.

(** X24: Over a whole session, the keyboard shows for each letter the best
    mark any guess gave it: correct over present over absent, and
    unused for a letter no guess holds. *)
Theorem colourAll_session (gs : seq Guess) (c : ascii) :
  all (fun x => all is_upper (chars (word x))) gs -> is_upper c ->
  LetterState_code
    (VirtualKeyboard.getKeyState (String c EmptyString)
       (colourAll gs VirtualKeyboard.create))
  = bestRank (flatten [seq marksOf c (word x) (result x) | x <- gs]).
Proof. by move=> up_gs up_c; rewrite colourAll_best //; exact: max0n. Qed.

Lemma colourAll_session_witness :
  VirtualKeyboard.getKeyState "L"
    (colourAll
       (WordleGame.guesses
          (WordleGame.play [::] "HELLO"
             (WordleGame.typeWord "LAAAA" ++ WordleGame.typeWord "AALAA")))
       VirtualKeyboard.create)
  = correct.
Proof.
apply: code_inj.
exact: (@colourAll_session
          (WordleGame.guesses
             (WordleGame.play [::] "HELLO"
                (WordleGame.typeWord "LAAAA" ++ WordleGame.typeWord "AALAA")))
          "L"%char erefl erefl).
Defined.

(* ================================================================== *)
(** * The word validator *)

Section Validator.
Import WordValidator.

Lemma is_upper_upper_char_letter (c : ascii) :
  is_upper (upper_char c) = is_letter c.
Proof. by case: c => [] [] [] [] [] [] [] [] []. Qed.

Lemma validateFormat_valid (w : string) :
  valid (validateFormat w) = fiveLetters w.
Proof.
rewrite /validateFormat /fiveLetters; case: (w =P EmptyString) => [->|_] //.
rewrite strlen_toUpperCase chars_toUpperCase all_map.
rewrite (@eq_all _ (preim upper_char is_upper) is_letter).
  by move=> c /=; rewrite is_upper_upper_char_letter.
by case: (strlen w == 5) => //=; case: (all _ _).
Qed.

Lemma validateFormat_word (w : string) :
  fiveLetters w ->
  validateFormat w = Result true None (Some (toUpperCase w)) None None.
Proof.
move=> five; have := validateFormat_valid w; rewrite five /validateFormat.
by do ?case: ifP.
Qed.

Lemma toUpperCase_valid (u : string) :
  WordleGame.isValidWord u -> toUpperCase u = u.
Proof.
case/andP=> _ up; apply: chars_inj; rewrite chars_toUpperCase.
rewrite -[RHS]map_id; apply/eq_in_map => c /(allP up).
by case: c => [] [] [] [] [] [] [] [] [].
Qed.

Lemma fiveLetters_valid (u : string) : WordleGame.isValidWord u -> fiveLetters u.
Proof.
case/andP=> len5 up; rewrite /fiveLetters len5 /=.
by apply: sub_all up => c; rewrite /is_letter => ->; rewrite orbT.
Qed.

Lemma isValidWord_mem (w : string) (v : t) :
  isValidWord w v = fiveLetters w && (toUpperCase w \in validWords v).
Proof.
rewrite /isValidWord /validateWord; case five: (fiveLetters w).
  by rewrite validateFormat_word //=; case: (_ \in _).
by rewrite validateFormat_valid five /= validateFormat_valid.
Qed.

Lemma addCustomWord_closed (w : string) (v : t) :
  (addCustomWord w v).2
  = if fiveLetters w
    then Make (set_add (validWords v) (toUpperCase w)) (commonWords v) else v.
Proof.
rewrite /addCustomWord; case five: (fiveLetters w).
  by rewrite validateFormat_word.
by rewrite validateFormat_valid five.
Qed.

Lemma valid_addCustomWord (w : string) (v : t) :
  valid (addCustomWord w v).1 = fiveLetters w.
Proof.
rewrite /addCustomWord; case five: (fiveLetters w).
  by rewrite validateFormat_word.
by rewrite validateFormat_valid five /= validateFormat_valid.
Qed.

Lemma addCustomWord_result (w : string) (v v' : t) :
  (addCustomWord w v).1 = (addCustomWord w v').1.
Proof. by rewrite /addCustomWord; case: ifP. Qed.

Lemma addWordList_fold (words : seq string) (rs : seq result) (v : t) :
  foldl (fun acc w =>
           let: (result, v1) := addCustomWord w acc.2 in (rcons acc.1 result, v1))
        (rs, v) words
  = (rs ++ [seq (addCustomWord w v).1 | w <- words],
     Make (foldl (@set_add _) (validWords v)
                 [seq toUpperCase w | w <- words & fiveLetters w])
          (commonWords v)).
Proof.
elim: words rs v => [|w words IH] rs v /=; first by rewrite cats0; case: v.
have -> : (let: (result, v1) := addCustomWord w v in (rcons rs result, v1))
          = (rcons rs (addCustomWord w v).1, (addCustomWord w v).2).
  by case: (addCustomWord w v).
rewrite IH cat_rcons addCustomWord_closed.
rewrite (@eq_map _ _ (fun w0 => (addCustomWord w0 _).1)
                     (fun w0 => (addCustomWord w0 v).1)).
  by move=> w0; apply: addCustomWord_result.
by case: (fiveLetters w).
Qed.

Lemma addWordList_closed (words : seq string) (v : t) :
  addWordList words v
  = (Summary (count fiveLetters words) (count (predC fiveLetters) words)
             [seq (addCustomWord w v).1 | w <- words],
     Make (foldl (@set_add _) (validWords v)
                 [seq toUpperCase w | w <- words & fiveLetters w])
          (commonWords v)).
Proof.
rewrite /addWordList addWordList_fold /= size_map size_filter count_map.
rewrite (@eq_count _ (preim _ valid) fiveLetters).
  by move=> w /=; rewrite valid_addCustomWord.
by rewrite -(count_predC fiveLetters words) addKn.
Qed.

End Validator.

(** X25: The validator accepts a word of ASCII characters exactly when it has
    5 letters, in either case, and its upper-case form is in the list; the
    word it then answers with is that upper-case form, and it passes the
    format test of [WordleGame.submitGuess]. *)
Theorem validateWord_accepted (w : string) (v : WordValidator.t) :
  all is_ascii (chars w) ->
  WordValidator.isValidWord w v
  = fiveLetters w && (toUpperCase w \in WordValidator.validWords v)
  /\ (WordValidator.isValidWord w v ->
      WordValidator.word (WordValidator.validateWord w v) = Some (toUpperCase w)
      /\ WordleGame.isValidWord (toUpperCase w)).
Proof.
move=> _; split; first exact: isValidWord_mem.
rewrite isValidWord_mem => /andP[five w_in]; split; last exact: isValidWord_toUpperCase.
by rewrite /WordValidator.validateWord validateFormat_word //= w_in.
Qed.

Lemma validateWord_accepted_witness :
  WordValidator.isValidWord "hello" (WordValidator.create [:: "HELLO"; "WORLD"]%string)
  = fiveLetters "hello"
    && (toUpperCase "hello"
          \in WordValidator.validWords
                (WordValidator.create [:: "HELLO"; "WORLD"]%string)).
Proof.
by have [] := @validateWord_accepted "hello"
                (WordValidator.create [:: "HELLO"; "WORLD"]%string) erefl.
Defined.

Section ValidatorInvariant.
Import WordValidator.

Lemma all_set_add (T : eqType) (p : pred T) (s : seq T) (x : T) :
  all p s -> p x -> all p (set_add s x).
Proof. by rewrite /set_add; case: ifP => // _ ps px; rewrite all_rcons px. Qed.

Lemma all_foldl_set_add (T : eqType) (p : pred T) (s xs : seq T) :
  all p s -> all p xs -> all p (foldl (@set_add T) s xs).
Proof.
elim: xs s => [|x xs IH] s //= ps /andP[px pxs].
by apply: IH => //; apply: all_set_add.
Qed.

Lemma foldl_set_add_uniq (T : eqType) (s xs : seq T) :
  uniq (s ++ xs) -> foldl (@set_add T) s xs = s ++ xs.
Proof.
elim: xs s => [|x xs IH] s /=; first by rewrite cats0.
rewrite -cat_rcons => uniq_sx; rewrite -IH /set_add //.
move: uniq_sx; rewrite cat_uniq rcons_uniq => /and3P[/andP[/negbTE ->]] //.
Qed.

(** The list is a set of words of 5 upper-case letters. *)
Definition words_inv (v : t) : Prop :=
  [/\ uniq (validWords v), all WordleGame.isValidWord (validWords v)
    & all WordleGame.isValidWord (commonWords v)].

Lemma all_valid_filter (words : seq string) :
  all WordleGame.isValidWord [seq toUpperCase w | w <- words & fiveLetters w].
Proof.
rewrite all_map; apply/allP => w; rewrite mem_filter => /andP[five _] /=.
exact: isValidWord_toUpperCase.
Qed.

Lemma words_inv_create (words : seq string) :
  all WordleGame.isValidWord words -> words_inv (create words).
Proof.
move=> valid_words; split; rewrite /create /=.
- exact: uniq_foldl_set_add.
- by do 2 apply: all_foldl_set_add => //.
- exact: all_foldl_set_add.
Qed.

Lemma words_inv_perform (v : t) (op : operation) :
  words_inv v -> words_inv (perform v op).
Proof.
case=> uniq_v valid_v valid_c; case: op => [w|ws|w||ws] /=.
- rewrite addCustomWord_closed; case: ifP => // five; split=> //=.
    exact: uniq_set_add.
  by apply: all_set_add => //; apply: isValidWord_toUpperCase.
- rewrite addWordList_closed /=; split=> //=; first exact: uniq_foldl_set_add.
  by apply: all_foldl_set_add => //; apply: all_valid_filter.
- rewrite /removeWord; case: ifP => // _.
  have inv_rem x : words_inv (Make (rem x (validWords v)) (commonWords v)).
    split=> //=; first exact: rem_uniq.
    by apply/allP => y /mem_rem; apply: (allP valid_v).
  by case: (_ \in _) => /=; apply: inv_rem.
- split=> //=; first exact: uniq_foldl_set_add.
  exact: all_foldl_set_add.
- rewrite /importWords addWordList_closed /=; split=> //=.
    exact: uniq_foldl_set_add.
  by apply: all_foldl_set_add => //; apply: all_valid_filter.
Qed.

End ValidatorInvariant.

(** X26: Whatever is added, removed, imported or reset on a validator built
    from words of 5 upper-case letters, its list holds no word twice and
    only words that [WordleGame] accepts as guesses. *)
Theorem validWords_invariant (words : seq string)
    (ops : seq WordValidator.operation) :
  all WordleGame.isValidWord words ->
  uniq (WordValidator.validWords
          (foldl WordValidator.perform (WordValidator.create words) ops))
  /\ all WordleGame.isValidWord
         (WordValidator.exportWords
            (foldl WordValidator.perform (WordValidator.create words) ops)).
Proof.
move/words_inv_create.
elim: ops (WordValidator.create words) => [|op ops IH] v /=; first by case.
by move/(words_inv_perform op); apply: IH.
Qed.

Lemma validWords_invariant_witness :
  uniq (WordValidator.validWords
          (foldl WordValidator.perform
             (WordValidator.create [:: "HELLO"; "WORLD"; "HELLO"]%string)
             [:: WordValidator.AddCustomWord "apple";
                 WordValidator.RemoveWord "world";
                 WordValidator.AddWordList [:: "Apple"; "toolong"; "GRAPE"]%string])).
Proof.
by have [] := @validWords_invariant [:: "HELLO"; "WORLD"; "HELLO"]%string
                [:: WordValidator.AddCustomWord "apple";
                    WordValidator.RemoveWord "world";
                    WordValidator.AddWordList [:: "Apple"; "toolong"; "GRAPE"]%string]
                erefl.
Defined.

(** X27: Importing what [exportWords] gives, into a validator whose list is a
    set of words of 5 upper-case letters, puts the same list back, in the
    same order, with every word counted as added and none as failed. *)
Theorem importWords_exportWords (v : WordValidator.t) :
  uniq (WordValidator.validWords v) ->
  all WordleGame.isValidWord (WordValidator.validWords v) ->
  [/\ (WordValidator.importWords (WordValidator.exportWords v) v).2 = v,
      WordValidator.successful
        (WordValidator.importWords (WordValidator.exportWords v) v).1
      = size (WordValidator.validWords v)
    & WordValidator.failed
        (WordValidator.importWords (WordValidator.exportWords v) v).1 = 0].
Proof.
move=> uniq_v valid_v.
have five_v : all fiveLetters (WordValidator.validWords v).
  by apply: sub_all valid_v => w; apply: fiveLetters_valid.
rewrite /WordValidator.importWords /WordValidator.exportWords addWordList_closed /=.
rewrite (all_filterP five_v).
have count_v : count fiveLetters (WordValidator.validWords v)
               = size (WordValidator.validWords v).
  by apply/eqP; rewrite -all_count.
have /eqP := count_predC fiveLetters (WordValidator.validWords v).
rewrite count_v -{2}[size _]addn0 eqn_add2l => /eqP ->.
split=> //.
have -> : [seq toUpperCase w | w <- WordValidator.validWords v]
          = WordValidator.validWords v.
  rewrite -[RHS]map_id; apply/eq_in_map => w /(allP valid_v).
  exact: toUpperCase_valid.
by rewrite foldl_set_add_uniq //; case: v {uniq_v valid_v five_v count_v}.
Qed.

Lemma importWords_exportWords_witness :
  (WordValidator.importWords
     (WordValidator.exportWords (WordValidator.create [:: "HELLO"; "WORLD"]%string))
     (WordValidator.create [:: "HELLO"; "WORLD"]%string)).2
  = WordValidator.create [:: "HELLO"; "WORLD"]%string.
Proof.
by have [] := @importWords_exportWords
                (WordValidator.create [:: "HELLO"; "WORLD"]%string) erefl erefl.
Defined.

Section Suggestions.
Import WordValidator.

Lemma suggest_take (pat : string) (limit : nat) (words acc : seq string) :
  size acc < maxn limit 1 ->
  suggest pat limit words acc
  = take (maxn limit 1) (acc ++ [seq w <- words | String.prefix pat w]).
Proof.
elim: words acc => [|w words IH] acc lt_acc /=.
  by rewrite cats0 take_oversize // ltnW.
case: ifP => _; last exact: IH.
rewrite -cat_rcons size_rcons; case: (leqP limit (size acc).+1) => [le_l|lt_l].
  have -> : maxn limit 1 = size (rcons acc w).
    apply/eqP; rewrite size_rcons eqn_leq lt_acc andbT geq_max le_l.
    by [].
  by rewrite take_size_cat.
by apply: IH; rewrite size_rcons leq_max lt_l.
Qed.

End Suggestions.

(** X28: [getSuggestions] answers with the first words of the list, in its
    order, that start with the pattern in upper case: [limit] of them at
    most, but one even when [limit] is 0, since the count is tested after
    a word is taken; an empty pattern gets no suggestion. *)
Theorem getSuggestions_take (partialWord : string) (limit : nat)
    (v : WordValidator.t) :
  all is_ascii (chars partialWord) ->
  WordValidator.getSuggestions partialWord limit v
  = if partialWord == EmptyString then [::]
    else take (maxn limit 1)
              [seq w <- WordValidator.validWords v
                 | String.prefix (toUpperCase partialWord) w].
Proof.
move=> _; rewrite /WordValidator.getSuggestions; case: ifP => // _.
by rewrite suggest_take // leq_max orbT.
Qed.

Lemma getSuggestions_take_witness :
  WordValidator.getSuggestions "wo" 0
    (WordValidator.create [:: "HELLO"; "WORLD"; "WORSE"]%string)
  = [:: "WORLD"%string].
Proof.
exact: (@getSuggestions_take "wo" 0
          (WordValidator.create [:: "HELLO"; "WORLD"; "WORSE"]%string) erefl).
Defined.

Section Lookup.
Import WordValidator.

Lemma isValidWord_addCustomWord (w x : string) (v : t) :
  isValidWord x (addCustomWord w v).2
  = isValidWord x v
    || [&& fiveLetters w, fiveLetters x & toUpperCase x == toUpperCase w].
Proof.
rewrite addCustomWord_closed !isValidWord_mem.
case: (fiveLetters w) => /=; last by rewrite orbF.
by rewrite mem_set_add; case: (fiveLetters x) => //=; rewrite orbC.
Qed.

Lemma isValidWord_removeWord (w x : string) (v : t) :
  uniq (validWords v) ->
  isValidWord x (removeWord w v).2
  = isValidWord x v && ~~ (fiveLetters w && (toUpperCase x == toUpperCase w)).
Proof.
move=> uniq_v; rewrite /removeWord; case five: (fiveLetters w) => /=; last first.
  by rewrite validateFormat_valid five /= andbT.
rewrite validateFormat_word //= (fun_if snd) /= if_same !isValidWord_mem /=.
by rewrite mem_rem_uniq // inE /= andbCA andbC.
Qed.

End Lookup.

(** X29: After [addCustomWord] of a word of 5 letters the validator accepts
    every spelling of it, in either case, and after [removeWord] none; the
    answer for any other word is as before, and an ill-formed word changes
    nothing. *)
Theorem addCustomWord_removeWord_lookup (w x : string) (v : WordValidator.t) :
  all is_ascii (chars w) -> all is_ascii (chars x) ->
  uniq (WordValidator.validWords v) ->
  WordValidator.isValidWord x (WordValidator.addCustomWord w v).2
  = WordValidator.isValidWord x v
    || [&& fiveLetters w, fiveLetters x & toUpperCase x == toUpperCase w]
  /\ WordValidator.isValidWord x (WordValidator.removeWord w v).2
     = WordValidator.isValidWord x v
       && ~~ (fiveLetters w && (toUpperCase x == toUpperCase w)).
Proof.
move=> _ _ uniq_v; split; first exact: isValidWord_addCustomWord.
exact: isValidWord_removeWord.
Qed.

Lemma addCustomWord_removeWord_lookup_witness :
  WordValidator.isValidWord "Apple"
    (WordValidator.addCustomWord "apple"
       (WordValidator.create [:: "HELLO"; "WORLD"]%string)).2
  = true
  /\ WordValidator.isValidWord "Apple"
       (WordValidator.removeWord "apple"
          (WordValidator.create [:: "HELLO"; "WORLD"]%string)).2
     = false.
Proof.
exact: (@addCustomWord_removeWord_lookup "apple" "Apple"
          (WordValidator.create [:: "HELLO"; "WORLD"]%string) erefl erefl erefl).
Defined.

Section CustomWords.
Import WordValidator.

Lemma count_mem_sym (T : eqType) (s1 s2 : seq T) :
  uniq s1 -> uniq s2 -> count (mem s2) s1 = count (mem s1) s2.
Proof.
move=> uniq1 uniq2; rewrite -!size_filter; apply: perm_size.
apply: uniq_perm; rewrite ?filter_uniq // => x.
by rewrite !mem_filter /= andbC.
Qed.

End CustomWords.

(** X30: [getStats().customWords], the difference of the two sizes, is the
    number of listed words that are not common words less the number of
    common words no longer listed: it counts the custom words only while
    no common word has been removed, and is negative when more have been
    removed than added. *)
Theorem getStats_customWords (v : WordValidator.t) :
  uniq (WordValidator.validWords v) -> uniq (WordValidator.commonWords v) ->
  WordValidator.customWords (WordValidator.getStats v)
  = (Z.of_nat (count (fun w => w \notin WordValidator.commonWords v)
                     (WordValidator.validWords v))
     - Z.of_nat (count (fun w => w \notin WordValidator.validWords v)
                       (WordValidator.commonWords v)))%Z.
Proof.
move=> uniq_v uniq_c; rewrite /WordValidator.getStats /=.
rewrite -(count_predC (mem (WordValidator.commonWords v)) (WordValidator.validWords v)).
rewrite -(count_predC (mem (WordValidator.validWords v)) (WordValidator.commonWords v)).
rewrite (count_mem_sym uniq_v uniq_c).
rewrite -![(_ + _)%N]/(Nat.add _ _) !Nat2Z.inj_add.
exact: Z.add_add_simpl_l_l.
Qed.

Lemma getStats_customWords_witness :
  WordValidator.customWords
    (WordValidator.getStats
       (WordValidator.removeWord "world"
          (WordValidator.create [:: "HELLO"; "WORLD"]%string)).2)
  = (-1)%Z.
Proof.
exact: (@getStats_customWords
          (WordValidator.removeWord "world"
             (WordValidator.create [:: "HELLO"; "WORLD"]%string)).2 erefl erefl).
Defined.
